(** * Compound-growth calculation engine of the S&P 500 interest calculator

    Shallow embedding of the five engine functions of the calculator
    ([calculateFutureValue], [calculateRequiredInvestment],
    [calculateProjections], [calculateYearsToMilestone] and
    [calculateInvestmentMetrics]) together with the properties the
    specification states about them.

    Numbers.  Every value of the source is a JavaScript [number].  The main
    development interprets a [number] as an exact rational extended with the
    three special values of IEEE arithmetic ([Infinity], [-Infinity], [NaN]):
    the arithmetic operators follow the IEEE rules for the special values
    (0/0 is [NaN], x/0 is an infinity, 0 * Infinity is [NaN], every comparison
    with [NaN] is false), while finite results are exact, that is, the
    rounding of binary64 and the sign of zero are abstracted away.  Where the
    behaviour of the source depends on binary64 rounding itself (the counter
    of the required-rate loop), the same code is also evaluated on Rocq's
    primitive binary64 floats in [Module Binary64].

    What the exact model does not show: a finite result never rounds, so
    [1 + monthlyRate] never collapses to 1, no product overflows to
    [Infinity] and [rate / 100 / 12] never underflows to 0.  Properties that
    rest on the paths through the special values, on the loops, on comparisons
    or on the array read do not depend on this and are properties of the
    source as it runs.  Properties that rest on the algebra of the closed
    formula (identities, monotonicity, the round trip) are marked "in exact
    arithmetic": they describe the function the source computes up to the
    rounding of binary64, not its last digits.

    Integer-valued variables of the source (month counters, the bounds of the
    bisection, array lengths) are integers of type [Z]. *)

From Stdlib Require Import ZArith QArith Qround Qpower List Lia Lqa Bool.
From Stdlib Require Import PrimFloat.
Import ListNotations.

Set Implicit Arguments.

(** ** JavaScript numbers *)

Inductive number : Type :=
| Fin (q : Q)
| PosInf
| NegInf
| NaN.

Declare Scope num_scope.
Delimit Scope num_scope with num.
Bind Scope num_scope with number.

Definition num_of_Z (z : Z) : number := Fin (inject_Z z).

(** Equality of numbers up to the representation of the rational. *)
Definition num_eq (x y : number) : Prop :=
  match x, y with
  | Fin a, Fin b => a == b
  | PosInf, PosInf => True
  | NegInf, NegInf => True
  | NaN, NaN => True
  | _, _ => False
  end.

(** Sign of a rational: the sign an infinity takes when a finite operand
    decides it. *)
Definition Qsign_inf (q : Q) : number :=
  match q ?= 0 with
  | Lt => NegInf
  | Gt => PosInf
  | Eq => NaN
  end.

Definition num_opp (x : number) : number :=
  match x with
  | Fin a => Fin (- a)
  | PosInf => NegInf
  | NegInf => PosInf
  | NaN => NaN
  end.

Definition num_add (x y : number) : number :=
  match x, y with
  | NaN, _ | _, NaN => NaN
  | Fin a, Fin b => Fin (a + b)
  | PosInf, NegInf | NegInf, PosInf => NaN
  | PosInf, _ | _, PosInf => PosInf
  | NegInf, _ | _, NegInf => NegInf
  end.

Definition num_sub (x y : number) : number := num_add x (num_opp y).

Definition num_mul (x y : number) : number :=
  match x, y with
  | NaN, _ | _, NaN => NaN
  | Fin a, Fin b => Fin (a * b)
  | Fin a, PosInf | PosInf, Fin a => Qsign_inf a
  | Fin a, NegInf | NegInf, Fin a => num_opp (Qsign_inf a)
  | PosInf, PosInf | NegInf, NegInf => PosInf
  | PosInf, NegInf | NegInf, PosInf => NegInf
  end.

(** Division: a finite value over zero is an infinity of the sign of the
    numerator, and 0/0 is [NaN]. *)
Definition num_div (x y : number) : number :=
  match x, y with
  | NaN, _ | _, NaN => NaN
  | Fin a, Fin b => if Qeq_bool b 0 then Qsign_inf a else Fin (a / b)
  | Fin _, PosInf | Fin _, NegInf => Fin 0
  | PosInf, Fin b => if Qle_bool 0 b then PosInf else NegInf
  | NegInf, Fin b => if Qle_bool 0 b then NegInf else PosInf
  | _, _ => NaN
  end.

Infix "+" := num_add : num_scope.
Infix "-" := num_sub : num_scope.
Infix "*" := num_mul : num_scope.
Infix "/" := num_div : num_scope.

(** [Math.pow(base, exponent)] at an integral exponent. *)
Definition Math_pow (base : number) (exponent : Z) : number :=
  if (exponent =? 0)%Z then Fin 1
  else match base with
       | NaN => NaN
       | Fin b =>
           if Qeq_bool b 0 && (exponent <? 0)%Z then PosInf
           else Fin (b ^ exponent)
       | PosInf => if (exponent <? 0)%Z then Fin 0 else PosInf
       | NegInf =>
           if (exponent <? 0)%Z then Fin 0
           else if Z.even exponent then PosInf else NegInf
       end.

(** Comparisons: every comparison with [NaN] is false. *)
Definition num_lt (x y : number) : bool :=
  match x, y with
  | NaN, _ | _, NaN => false
  | Fin a, Fin b => negb (Qle_bool b a)
  | NegInf, NegInf | PosInf, _ => false
  | NegInf, _ => true
  | Fin _, PosInf => true
  | Fin _, NegInf => false
  end.

Definition num_le (x y : number) : bool :=
  match x, y with
  | NaN, _ | _, NaN => false
  | Fin a, Fin b => Qle_bool a b
  | NegInf, _ | _, PosInf => true
  | _, _ => false
  end.

Definition num_ge (x y : number) : bool := num_le y x.

(** Truthiness of a number in a condition: [0] and [NaN] are falsy. *)
Definition truthy (x : number) : bool :=
  match x with
  | NaN => false
  | Fin a => negb (Qeq_bool a 0)
  | _ => true
  end.

Definition Math_max (x y : number) : number :=
  match x, y with
  | NaN, _ | _, NaN => NaN
  | _, _ => if num_le x y then y else x
  end.

Definition Math_floor (x : number) : number :=
  match x with
  | Fin a => num_of_Z (Qfloor a)
  | _ => x
  end.

(** [Math.round] rounds to the nearest integer, ties towards +Infinity. *)
Definition Math_round (x : number) : number :=
  match x with
  | Fin a => num_of_Z (Qfloor (a + (1 # 2)))
  | _ => x
  end.

(** ** Constants of the source *)

Definition SP500_INTEREST : number := Fin 10.
Definition SAVINGS_INTEREST : number := Fin (15 # 10).
Definition BONDS_INTEREST : number := Fin (45 # 10).
Definition INFLATION_RATE : number := Fin 3.
Definition BEST_YEAR : number := Fin 37.
Definition WORST_YEAR : number := Fin (-37).

(** ** calculateFutureValue *)

Definition calculateFutureValue
  (principal monthlyContribution annualRate : number) (months : Z) : number :=
  let monthlyRate := (annualRate / Fin 100 / Fin 12)%num in
  let fvPrincipal := (principal * Math_pow (Fin 1 + monthlyRate) months)%num in
  let fvContributions :=
    (monthlyContribution *
       ((Math_pow (Fin 1 + monthlyRate) months - Fin 1) / monthlyRate))%num in
  (fvPrincipal + fvContributions)%num.

(** ** calculateRequiredInvestment *)

Definition requiredPrincipal_unclamped
  (targetAmount monthlyContribution annualRate : number) (months : Z) : number :=
  let monthlyRate := (annualRate / Fin 100 / Fin 12)%num in
  let fvContributions :=
    (monthlyContribution *
       ((Math_pow (Fin 1 + monthlyRate) months - Fin 1) / monthlyRate))%num in
  ((targetAmount - fvContributions) / Math_pow (Fin 1 + monthlyRate) months)%num.

Definition calculateRequiredInvestment
  (targetAmount monthlyContribution annualRate : number) (months : Z) : number :=
  let requiredPrincipal :=
    requiredPrincipal_unclamped targetAmount monthlyContribution annualRate months in
  Math_max (Fin 0) requiredPrincipal.

(** ** calculateProjections *)

Record MonthData : Type := {
  month : number;
  year : number;
  balance : number;
  contributions : number;
  gains : number;
  inflationAdjusted : number;
  savingsAccount : number;
  bonds : number;
  bestCase : number;
  worstCase : number
}.

Section Projections.

(** [Math.pow] at a non-integral exponent has no rational value in general;
    the development is parametric in it.  It only enters the
    inflation-adjusted balance. *)
Variable Math_pow_fractional : number -> number -> number.

(** [Math.pow(base, exponent)] at an exponent that is itself a number: exact
    when the exponent is an integer. *)
Definition Math_pow_num (base exponent : number) : number :=
  match exponent with
  | Fin e =>
      if Qeq_bool (inject_Z (Qfloor e)) e then Math_pow base (Qfloor e)
      else Math_pow_fractional base exponent
  | _ => Math_pow_fractional base exponent
  end.

(** The record pushed by one iteration of the loop. *)
Definition projectionPoint
  (initialInvestment monthlyContribution annualRate : number) (month : Z)
  : MonthData :=
  let balance :=
    calculateFutureValue initialInvestment monthlyContribution annualRate month in
  let contributions :=
    (initialInvestment + monthlyContribution * num_of_Z month)%num in
  let gains := (balance - contributions)%num in
  let inflationAdjusted :=
    (balance / Math_pow_num (Fin 1 + INFLATION_RATE / Fin 100)
                            (num_of_Z month / Fin 12))%num in
  let savingsAccount :=
    calculateFutureValue initialInvestment monthlyContribution SAVINGS_INTEREST month in
  let bonds :=
    calculateFutureValue initialInvestment monthlyContribution BONDS_INTEREST month in
  let bestCase :=
    calculateFutureValue initialInvestment monthlyContribution BEST_YEAR month in
  let worstCase :=
    calculateFutureValue initialInvestment monthlyContribution WORST_YEAR month in
  {| month := num_of_Z month;
     year := Math_floor (num_of_Z month / Fin 12)%num;
     balance := Math_round balance;
     contributions := Math_round contributions;
     gains := Math_round gains;
     inflationAdjusted := Math_round inflationAdjusted;
     savingsAccount := Math_round savingsAccount;
     bonds := Math_round bonds;
     bestCase := Math_round bestCase;
     worstCase := Math_round worstCase |}.

(** [for (let month = 1; month <= months; month++) data.push(...)]: the
    first argument counts the iterations that remain, [month] is the loop
    counter and [data] the array built so far. *)
Fixpoint projections_loop
  (initialInvestment monthlyContribution annualRate : number)
  (remaining : nat) (month : Z) (data : list MonthData) : list MonthData :=
  match remaining with
  | O => data
  | S remaining' =>
      projections_loop initialInvestment monthlyContribution annualRate
        remaining' (month + 1)
        (data ++ [projectionPoint initialInvestment monthlyContribution
                    annualRate month])
  end.

Definition calculateProjections
  (initialInvestment monthlyContribution annualRate : number) (years : Z)
  : list MonthData :=
  let months := (years * 12)%Z in
  projections_loop initialInvestment monthlyContribution annualRate
    (Z.to_nat months) 1 [].

End Projections.

(** ** calculateYearsToMilestone *)

(** [while (low < high) { ... }]: one unit of [fuel] is spent per iteration;
    [None] means that the fuel ran out before the loop exited. *)
Fixpoint bisect_loop
  (currentBalance monthlyContribution annualRate targetAmount : number)
  (fuel : nat) (low high : Z) : option Z :=
  if (low <? high)%Z then
    match fuel with
    | O => None
    | S fuel' =>
        let mid := ((low + high) / 2)%Z in
        let value :=
          calculateFutureValue currentBalance monthlyContribution annualRate mid in
        if num_lt value targetAmount then
          bisect_loop currentBalance monthlyContribution annualRate targetAmount
            fuel' (mid + 1) high
        else
          bisect_loop currentBalance monthlyContribution annualRate targetAmount
            fuel' low mid
    end
  else Some low.

Definition calculateYearsToMilestone
  (currentBalance monthlyContribution annualRate targetAmount : number)
  : option number :=
  if num_ge currentBalance targetAmount then Some (Fin 0)
  else
    match bisect_loop currentBalance monthlyContribution annualRate targetAmount
            1200 0 1200 with
    | Some low => Some (num_of_Z low / Fin 12)%num
    | None => None
    end.

(** The milestone property in the words of the specification: zero when the
    principal already reaches the target; otherwise [P / 12] for the first
    month count [P] of [0..1200] whose balance is at or above the target, all
    earlier balances being below it, or the sentinel [1200 / 12] when no
    balance within 1200 months reaches it. *)
Definition milestone_spec
  (principal contribution rate target result : number) : Prop :=
  if num_ge principal target then result = Fin 0
  else
    exists P : Z,
      (0 <= P <= 1200)%Z
      /\ num_eq result (Fin (inject_Z P / 12))
      /\ (forall m : Z, (0 <= m < P)%Z ->
            num_lt (calculateFutureValue principal contribution rate m) target = true)
      /\ (num_ge (calculateFutureValue principal contribution rate P) target = true
          \/ (P = 1200%Z
              /\ num_lt (calculateFutureValue principal contribution rate 1200) target
                 = true)).

(** ** calculateInvestmentMetrics *)

Record InvestmentMetrics : Type := {
  finalBalance : number;
  totalContributions : number;
  totalGains : number;
  inflationAdjustedValue : number;
  monthlyIncome : number;
  yearsTo1M : number;
  yearsTo2M : number;
  yearsTo5M : number;
  vsSavings : number;
  vsBonds : number;
  requiredRate : number;
  withdrawalSustainability : number
}.

(** How a call ends: it returns a value, it throws the [TypeError] of a
    property read on [undefined], or the model ran out of fuel. *)
Inductive outcome (A : Type) : Type :=
| Returns (a : A)
| ThrowsTypeError
| OutOfFuel.

Arguments Returns {A} a.
Arguments ThrowsTypeError {A}.
Arguments OutOfFuel {A}.

Definition bind {A B : Type} (x : outcome A) (k : A -> outcome B) : outcome B :=
  match x with
  | Returns a => k a
  | ThrowsTypeError => ThrowsTypeError
  | OutOfFuel => OutOfFuel
  end.

Definition with_fuel {A : Type} (x : option A) : outcome A :=
  match x with
  | Some a => Returns a
  | None => OutOfFuel
  end.

Notation "x <- e ;; k" := (bind e (fun x => k))
  (at level 61, e at next level, right associativity).

(** [a[i]]: [undefined] (here [None]) outside the bounds of the array. *)
Definition array_get {A : Type} (a : list A) (i : Z) : option A :=
  if (i <? 0)%Z then None else nth_error a (Z.to_nat i).

(** [for (let rate = 0; rate <= 50; rate += 0.1) { if (testBalance >=
    targetBalance) { requiredRate = rate; break; } }]: the result is the
    final value of [requiredRate], which starts at 0. *)
Fixpoint requiredRate_loop
  (initialInvestment monthlyContribution targetBalance : number) (length : Z)
  (fuel : nat) (rate : number) : option number :=
  if num_le rate (Fin 50) then
    match fuel with
    | O => None
    | S fuel' =>
        let testBalance :=
          calculateFutureValue initialInvestment monthlyContribution rate length in
        if num_ge testBalance targetBalance then Some rate
        else requiredRate_loop initialInvestment monthlyContribution targetBalance
               length fuel' (rate + Fin (1 # 10))%num
    end
  else Some (Fin 0).

Definition calculateInvestmentMetrics
  (projections : list MonthData)
  (initialInvestment monthlyContribution annualRate : number)
  (targetMonthlyIncome : option number) : outcome InvestmentMetrics :=
  match array_get projections (Z.of_nat (length projections) - 1) with
  | None => ThrowsTypeError
  | Some finalMonth =>
      let monthlyIncome := (balance finalMonth * Fin (4 # 100) / Fin 12)%num in
      yearsTo1M <- with_fuel (calculateYearsToMilestone initialInvestment
                                monthlyContribution annualRate (Fin 1000000)) ;;
      yearsTo2M <- with_fuel (calculateYearsToMilestone initialInvestment
                                monthlyContribution annualRate (Fin 2000000)) ;;
      yearsTo5M <- with_fuel (calculateYearsToMilestone initialInvestment
                                monthlyContribution annualRate (Fin 5000000)) ;;
      let vsSavings := (balance finalMonth - savingsAccount finalMonth)%num in
      let vsBonds := (balance finalMonth - bonds finalMonth)%num in
      requiredRate <-
        with_fuel
          match targetMonthlyIncome with
          | Some income =>
              if truthy income then
                let targetBalance := (income * Fin 12 / Fin (4 # 100))%num in
                requiredRate_loop initialInvestment monthlyContribution
                  targetBalance (Z.of_nat (length projections)) 501 (Fin 0)
              else Some (Fin 0)
          | None => Some (Fin 0)
          end ;;
      let withdrawalSustainability := Fin 25 in
      Returns
        {| finalBalance := Math_round (balance finalMonth);
           totalContributions := Math_round (contributions finalMonth);
           totalGains := Math_round (gains finalMonth);
           inflationAdjustedValue := Math_round (inflationAdjusted finalMonth);
           monthlyIncome := Math_round monthlyIncome;
           yearsTo1M := (Math_round (yearsTo1M * Fin 10) / Fin 10)%num;
           yearsTo2M := (Math_round (yearsTo2M * Fin 10) / Fin 10)%num;
           yearsTo5M := (Math_round (yearsTo5M * Fin 10) / Fin 10)%num;
           vsSavings := Math_round vsSavings;
           vsBonds := Math_round vsBonds;
           requiredRate := (Math_round (requiredRate * Fin 10) / Fin 10)%num;
           withdrawalSustainability := withdrawalSustainability |}
  end.

(** ** The same arithmetic on binary64

    [calculateFutureValue] and the required-rate loop evaluated on IEEE
    binary64, the number type of the source.  [Math.pow] is
    implementation-approximated in ECMAScript; at a non-negative integral
    exponent it is taken as the repeated product, which agrees with every
    implementation at exponents 0 and 1 and at base 1. *)
Module Binary64.

Local Open Scope float_scope.

Fixpoint Math_pow (base : float) (exponent : nat) : float :=
  match exponent with
  | O => 1
  | S n => base * Math_pow base n
  end.

Definition calculateFutureValue
  (principal monthlyContribution annualRate : float) (months : nat) : float :=
  let monthlyRate := annualRate / 100 / 12 in
  let fvPrincipal := principal * Math_pow (1 + monthlyRate) months in
  let fvContributions :=
    monthlyContribution * ((Math_pow (1 + monthlyRate) months - 1) / monthlyRate) in
  fvPrincipal + fvContributions.

(** The binary64 values of the literals [0.1] and [0.04]. *)
Definition lit_0_1 : float := 0x1.999999999999ap-4.
Definition lit_0_04 : float := 0x1.47ae147ae147bp-5.

(** The loop counter after [k] executions of [rate += 0.1]. *)
Fixpoint rate_after (k : nat) : float :=
  match k with
  | O => 0
  | S k' => rate_after k' + lit_0_1
  end.

Fixpoint requiredRate_loop
  (initialInvestment monthlyContribution targetBalance : float) (length : nat)
  (fuel : nat) (rate : float) : option float :=
  if rate <=? 50 then
    match fuel with
    | O => None
    | S fuel' =>
        let testBalance :=
          calculateFutureValue initialInvestment monthlyContribution rate length in
        if targetBalance <=? testBalance then Some rate
        else requiredRate_loop initialInvestment monthlyContribution targetBalance
               length fuel' (rate + lit_0_1)
    end
  else Some 0.

(** A month count as a binary64 value (exact for every integer of the
    search). *)
Fixpoint of_nat (n : nat) : float :=
  match n with
  | O => 0
  | S k => of_nat k + 1
  end.

Fixpoint bisect_loop
  (currentBalance monthlyContribution annualRate targetAmount : float)
  (fuel : nat) (low high : Z) : option Z :=
  if (low <? high)%Z then
    match fuel with
    | O => None
    | S fuel' =>
        let mid := ((low + high) / 2)%Z in
        let value :=
          calculateFutureValue currentBalance monthlyContribution annualRate
            (Z.to_nat mid) in
        if value <? targetAmount then
          bisect_loop currentBalance monthlyContribution annualRate targetAmount
            fuel' (mid + 1)%Z high
        else
          bisect_loop currentBalance monthlyContribution annualRate targetAmount
            fuel' low mid
    end
  else Some low.

Definition calculateYearsToMilestone
  (currentBalance monthlyContribution annualRate targetAmount : float)
  : option float :=
  if targetAmount <=? currentBalance then Some 0
  else
    match bisect_loop currentBalance monthlyContribution annualRate targetAmount
            1200 0 1200 with
    | Some low => Some (of_nat (Z.to_nat low) / 12)
    | None => None
    end.

End Binary64.

(** ** The recalculation effect of the calculator

    The body of the effect of [InvestmentCalculator] that recomputes the
    series and the metrics from the state; the result is the pair passed to
    [setProjections] and [setMetrics]. *)
Module App.

Inductive Mode : Type := goal | investment.

Record CalculatorState : Type := {
  mode : Mode;
  targetMonthlyIncome : option number;
  targetYears : option Z;
  initialInvestment : option number;
  monthlyContribution : option number;
  investmentYears : option Z;
  useCustomRate : bool;
  customInterestRate : number
}.

(** [x || d] on an optional number: [undefined], 0 and [NaN] are falsy. *)
Definition or_default (x : option number) (d : number) : number :=
  match x with
  | Some v => if truthy v then v else d
  | None => d
  end.

(** [x || d] on an optional integer. *)
Definition or_default_Z (x : option Z) (d : Z) : Z :=
  match x with
  | Some v => if (v =? 0)%Z then d else v
  | None => d
  end.

Section Effect.

Variable Math_pow_fractional : number -> number -> number.

Definition recalculate (state : CalculatorState)
  : outcome (list MonthData * InvestmentMetrics) :=
  let rate :=
    if useCustomRate state then customInterestRate state else SP500_INTEREST in
  match mode state with
  | investment =>
      let data :=
        calculateProjections Math_pow_fractional
          (or_default (initialInvestment state) (Fin 0))
          (or_default (monthlyContribution state) (Fin 0))
          rate
          (or_default_Z (investmentYears state) 30) in
      investmentMetrics <-
        calculateInvestmentMetrics data
          (or_default (initialInvestment state) (Fin 0))
          (or_default (monthlyContribution state) (Fin 0))
          rate None ;;
      Returns (data, investmentMetrics)
  | goal =>
      let targetBalance :=
        (or_default (targetMonthlyIncome state) (Fin 0) * Fin 12
         / Fin (4 # 100))%num in
      let requiredInvestment :=
        calculateRequiredInvestment targetBalance
          (or_default (monthlyContribution state) (Fin 0))
          rate
          (or_default_Z (targetYears state) 30 * 12) in
      let data :=
        calculateProjections Math_pow_fractional
          requiredInvestment
          (or_default (monthlyContribution state) (Fin 0))
          rate
          (or_default_Z (targetYears state) 30) in
      investmentMetrics <-
        calculateInvestmentMetrics data
          requiredInvestment
          (or_default (monthlyContribution state) (Fin 0))
          rate
          (targetMonthlyIncome state) ;;
      Returns (data, investmentMetrics)
  end.

End Effect.

End App.

(** ** Auxiliary definitions of the proofs *)

(** Closed forms of the future value and of the unclamped required principal
    on finite inputs. *)
Definition fv_closed (p c r : Q) (n : Z) : Q :=
  p * (1 + r / 100 / 12) ^ n
  + c * (((1 + r / 100 / 12) ^ n - 1) / (r / 100 / 12)).

Definition rp_closed (t c r : Q) (n : Z) : Q :=
  (t - c * (((1 + r / 100 / 12) ^ n - 1) / (r / 100 / 12)))
  / (1 + r / 100 / 12) ^ n.

(** The value the required-rate step leaves in [requiredRate]. *)
Definition requiredRate_value
  (initialInvestment monthlyContribution : number) (length : Z)
  (targetMonthlyIncome : option number) : option number :=
  match targetMonthlyIncome with
  | Some income =>
      if truthy income then
        requiredRate_loop initialInvestment monthlyContribution
          (income * Fin 12 / Fin (4 # 100))%num length 501 (Fin 0)
      else Some (Fin 0)
  | None => Some (Fin 0)
  end.

(** The bisection loop over an arbitrary "below the target" test. *)
Fixpoint bisect_with (below : Z -> bool) (fuel : nat) (low high : Z) : option Z :=
  if (low <? high)%Z then
    match fuel with
    | O => None
    | S fuel' =>
        let mid := ((low + high) / 2)%Z in
        if below mid then bisect_with below fuel' (mid + 1) high
        else bisect_with below fuel' low mid
    end
  else Some low.

(** The counter of the rate loop after [k] increments, in exact arithmetic. *)
Definition rate_candidate (k : nat) : number :=
  Nat.iter k (fun rate => (rate + Fin (1 # 10))%num) (Fin 0).

(** * Properties *)

Lemma num_mul_NaN_r (x : number) : (x * NaN)%num = NaN.
Proof. destruct x; reflexivity. Qed.

Lemma num_add_NaN_r (x : number) : (x + NaN)%num = NaN.
Proof. destruct x; reflexivity. Qed.

Lemma Math_pow_one (n : Z) : num_eq (Math_pow (Fin 1) n) (Fin 1).
Proof.
  unfold Math_pow. destruct (n =? 0)%Z; simpl; [reflexivity|].
  destruct (n <? 0)%Z; simpl; apply Qpower_1.
Qed.

Lemma Qsign_inf_zero (q : Q) : q == 0 -> Qsign_inf q = NaN.
Proof.
  intros H. unfold Qsign_inf. apply Qeq_alt in H. rewrite H. reflexivity.
Qed.

Lemma Qsign_inf_not_finite (q a : Q) : Qsign_inf q <> Fin a.
Proof. unfold Qsign_inf. destruct (q ?= 0); discriminate. Qed.

Lemma monthly_rate_of (r : Q) : (Fin r / Fin 100 / Fin 12)%num = Fin (r / 100 / 12).
Proof. reflexivity. Qed.

Lemma monthly_rate_zero (r : Q) : r == 0 -> Qeq_bool (r / 100 / 12) 0 = true.
Proof. intros H. apply Qeq_bool_iff. rewrite H. reflexivity. Qed.

Lemma monthly_rate_nonzero (r : Q) : ~ r == 0 -> Qeq_bool (r / 100 / 12) 0 = false.
Proof.
  intros Hr. destruct (Qeq_bool (r / 100 / 12) 0) eqn:E; [|reflexivity].
  exfalso. apply Hr. apply Qeq_bool_eq in E.
  setoid_replace r with (r / 100 / 12 * 1200) by field.
  rewrite E. reflexivity.
Qed.

(** At a zero rate the growth factor is a finite number equal to one. *)
Lemma growth_factor_zero_rate (r : Q) (n : Z) :
  r == 0 ->
  exists g, Math_pow (Fin 1 + Fin r / Fin 100 / Fin 12)%num n = Fin g /\ g == 1.
Proof.
  intros Hr. rewrite monthly_rate_of.
  change (Fin 1 + Fin (r / 100 / 12))%num with (Fin (1 + r / 100 / 12)).
  assert (E : 1 + r / 100 / 12 == 1) by (rewrite Hr; reflexivity).
  unfold Math_pow.
  destruct (n =? 0)%Z; [exists 1; split; reflexivity|].
  replace (Qeq_bool (1 + r / 100 / 12) 0) with false.
  - simpl. eexists; split; [reflexivity|]. rewrite E. apply Qpower_1.
  - symmetry. apply not_true_is_false. intros H.
    apply Qeq_bool_iff in H. rewrite E in H. discriminate H.
Qed.

(** ... so the annuity factor divides zero by zero. *)
Lemma annuity_factor_zero_rate (r : Q) (n : Z) :
  r == 0 ->
  ((Math_pow (Fin 1 + Fin r / Fin 100 / Fin 12) n - Fin 1)
     / (Fin r / Fin 100 / Fin 12))%num = NaN.
Proof.
  intros Hr.
  destruct (growth_factor_zero_rate n Hr) as (g & -> & Hg).
  rewrite monthly_rate_of. simpl.
  rewrite (monthly_rate_zero Hr).
  apply Qsign_inf_zero. rewrite Hg. reflexivity.
Qed.

Lemma futureValue_zero_rate principal monthlyContribution (r : Q) months :
  r == 0 ->
  calculateFutureValue principal monthlyContribution (Fin r) months = NaN.
Proof.
  intros Hr. unfold calculateFutureValue.
  rewrite (annuity_factor_zero_rate _ Hr), num_mul_NaN_r, num_add_NaN_r.
  reflexivity.
Qed.

Lemma requiredPrincipal_zero_rate targetAmount monthlyContribution (r : Q) months :
  r == 0 ->
  requiredPrincipal_unclamped targetAmount monthlyContribution (Fin r) months = NaN.
Proof.
  intros Hr. unfold requiredPrincipal_unclamped.
  rewrite (annuity_factor_zero_rate _ Hr), num_mul_NaN_r.
  unfold num_sub. simpl num_opp. rewrite num_add_NaN_r. reflexivity.
Qed.

Lemma requiredInvestment_zero_rate targetAmount monthlyContribution (r : Q) months :
  r == 0 ->
  calculateRequiredInvestment targetAmount monthlyContribution (Fin r) months = NaN.
Proof.
  intros Hr. unfold calculateRequiredInvestment.
  rewrite (requiredPrincipal_zero_rate _ _ _ Hr). reflexivity.
Qed.

(** *** Closed form on finite inputs at a non-zero rate *)

Lemma Math_pow_finite (b : Q) (n : Z) :
  (0 <= n)%Z -> Math_pow (Fin b) n = Fin (b ^ n).
Proof.
  intros Hn. unfold Math_pow.
  destruct (n =? 0)%Z eqn:E.
  - apply Z.eqb_eq in E. subst n. reflexivity.
  - replace (n <? 0)%Z with false by (symmetry; apply Z.ltb_ge; exact Hn).
    rewrite andb_false_r. reflexivity.
Qed.

Lemma calculateFutureValue_finite (p c r : Q) (n : Z) :
  ~ r == 0 -> (0 <= n)%Z ->
  calculateFutureValue (Fin p) (Fin c) (Fin r) n = Fin (fv_closed p c r n).
Proof.
  intros Hr Hn. unfold calculateFutureValue.
  rewrite monthly_rate_of.
  change (Fin 1 + Fin (r / 100 / 12))%num with (Fin (1 + r / 100 / 12)).
  rewrite Math_pow_finite by exact Hn.
  unfold num_sub, num_opp, num_add, num_div, num_mul.
  rewrite (monthly_rate_nonzero Hr). reflexivity.
Qed.

(** C1 (zero-rate future value).  The source has no zero-rate branch: with
    [annualRate] exactly 0 the annuity term divides 0 by 0, so the function
    returns [NaN] for every principal, contribution and period count, and in
    particular [calculateFutureValue(1000, 100, 0, 12)] is [NaN], not 2200. *)
Theorem calculateFutureValue_zero_rate_is_NaN :
  (forall principal monthlyContribution months,
      calculateFutureValue principal monthlyContribution (Fin 0) months = NaN)
  /\ calculateFutureValue (Fin 1000) (Fin 100) (Fin 0) 12 = NaN
  /\ ~ num_eq (calculateFutureValue (Fin 1000) (Fin 100) (Fin 0) 12) (Fin 2200).
Proof.
  split; [intros; apply futureValue_zero_rate; reflexivity|].
  split; [apply futureValue_zero_rate; reflexivity|].
  rewrite futureValue_zero_rate by reflexivity. intros H. exact H.
Qed.

(** *** Order facts on the closed form *)

Lemma num_le_Fin (a b : Q) : num_le (Fin a) (Fin b) = true <-> a <= b.
Proof. simpl. apply Qle_bool_iff. Qed.

Lemma num_lt_Fin (a b : Q) : num_lt (Fin a) (Fin b) = true <-> a < b.
Proof.
  simpl. rewrite negb_true_iff. split.
  - intros H. apply Qnot_le_lt. intros Hle.
    apply Qle_bool_iff in Hle. congruence.
  - intros H. destruct (Qle_bool b a) eqn:E; [|reflexivity].
    apply Qle_bool_iff in E. exfalso. exact (Qlt_not_le _ _ H E).
Qed.

Lemma num_lt_Fin_false (a b : Q) : num_lt (Fin a) (Fin b) = false <-> b <= a.
Proof.
  simpl. rewrite negb_false_iff. apply Qle_bool_iff.
Qed.

(** Powers of a base in [0, 1] do not increase with the exponent. *)
Lemma Qpower_le_compat_small (q : Q) (n m : Z) :
  (0 <= n <= m)%Z -> 0 <= q -> q <= 1 -> q ^ m <= q ^ n.
Proof.
  intros Hnm H0 H1.
  destruct (Z.eq_dec n m) as [->|Hne]; [apply Qle_refl|].
  destruct (Qeq_dec q 0) as [Hq|Hq].
  - rewrite Hq. rewrite (Qpower_0 m) by lia. apply Qpower_0_le. apply Qle_refl.
  - replace m with (n + (m - n))%Z by ring.
    rewrite Qpower_plus by exact Hq.
    assert (Hk : q ^ (m - n) <= 1).
    { assert (Hq' : 0 < q) by (apply Qle_lt_or_eq in H0; destruct H0 as [H0|H0];
                                [exact H0| exfalso; apply Hq; symmetry; exact H0]).
      assert (Hinv : 1 <= / q).
      { apply Qle_shift_inv_l; [exact Hq'|]. rewrite Qmult_1_l. exact H1. }
      pose proof (Qpower_1_le (/ q) (m - n) Hinv ltac:(lia)) as Hp.
      rewrite Qinv_power in Hp.
      assert (Hpos : 0 < q ^ (m - n)) by (apply Qpower_0_lt; exact Hq').
      assert (Hy : q ^ (m - n) * / q ^ (m - n) == 1).
      { apply Qmult_inv_r. intros E. rewrite E in Hpos. discriminate Hpos. }
      set (y := / q ^ (m - n)) in *. set (x := q ^ (m - n)) in *. nra. }
    assert (Hn : 0 <= q ^ n) by (apply Qpower_0_le; exact H0).
    nra.
Qed.

(** The closed form as an affine function of the growth factor. *)
Lemma fv_closed_affine (p c r : Q) (n : Z) :
  ~ r == 0 ->
  fv_closed p c r n ==
  (p + c / (r / 100 / 12)) * (1 + r / 100 / 12) ^ n - c / (r / 100 / 12).
Proof.
  intros Hr. unfold fv_closed. field. exact Hr.
Qed.

Lemma fv_closed_0 (p c r : Q) : ~ r == 0 -> fv_closed p c r 0 == p.
Proof.
  intros Hr. unfold fv_closed. simpl Qpower. field. exact Hr.
Qed.

(** Monotonicity in the period count at a positive rate, in exact
    arithmetic. *)
Lemma fv_closed_monotone (p c r : Q) (n1 n2 : Z) :
  0 <= p -> 0 <= c -> 0 < r -> (0 <= n1 <= n2)%Z ->
  fv_closed p c r n1 <= fv_closed p c r n2.
Proof.
  intros Hp Hc Hr Hn.
  assert (Hr0 : ~ r == 0) by (intros E; rewrite E in Hr; discriminate Hr).
  rewrite !fv_closed_affine by exact Hr0.
  set (m := r / 100 / 12).
  assert (Hm : 0 < m).
  { unfold m. apply Qlt_shift_div_l; [reflexivity|].
    apply Qlt_shift_div_l; [reflexivity|]. lra. }
  assert (Hpow : (1 + m) ^ n1 <= (1 + m) ^ n2).
  { apply Qpower_le_compat_l; [lia|lra]. }
  assert (Hcm : 0 <= c / m).
  { apply Qle_shift_div_l; [exact Hm|]. lra. }
  nra.
Qed.

Lemma calculateFutureValue_monotone_positive_rate (p c r : Q) (n1 n2 : Z) :
  0 <= p -> 0 <= c -> 0 < r -> (0 <= n1 <= n2)%Z ->
  num_le (calculateFutureValue (Fin p) (Fin c) (Fin r) n1)
         (calculateFutureValue (Fin p) (Fin c) (Fin r) n2) = true.
Proof.
  intros Hp Hc Hr Hn.
  assert (Hr0 : ~ r == 0) by (intros E; rewrite E in Hr; discriminate Hr).
  rewrite !calculateFutureValue_finite by (try exact Hr0; lia).
  apply num_le_Fin. apply fv_closed_monotone; assumption.
Qed.

(** C4 (monotonicity in the period count).  In exact arithmetic, at every
    positive rate the future value is non-decreasing in the period count
    ([calculateFutureValue_monotone_positive_rate]), but the property is stated
    for rate 0 as well, where the source returns [NaN] for every period count and the
    comparison [FV(n1) <= FV(n2)] is false, for instance at principal 1000,
    contribution 100 and period counts 1 and 2. *)
Theorem calculateFutureValue_zero_rate_not_monotone :
  (forall principal monthlyContribution n1 n2,
      num_le (calculateFutureValue principal monthlyContribution (Fin 0) n1)
             (calculateFutureValue principal monthlyContribution (Fin 0) n2)
      = false)
  /\ num_le (calculateFutureValue (Fin 1000) (Fin 100) (Fin 0) 1)
            (calculateFutureValue (Fin 1000) (Fin 100) (Fin 0) 2) = false.
Proof.
  assert (H : forall principal monthlyContribution n1 n2,
             num_le (calculateFutureValue principal monthlyContribution (Fin 0) n1)
               (calculateFutureValue principal monthlyContribution (Fin 0) n2)
             = false).
  { intros p c n1 n2. rewrite !futureValue_zero_rate by reflexivity. reflexivity. }
  split; [exact H | apply H].
Qed.

(** *** calculateRequiredInvestment *)

Lemma Math_max_zero_cases (x : number) :
  Math_max (Fin 0) x = NaN \/ num_ge (Math_max (Fin 0) x) (Fin 0) = true.
Proof.
  destruct x as [a| | |]; simpl; auto.
  right. unfold num_ge. destruct (Qle_bool 0 a) eqn:E; simpl; [exact E|reflexivity].
Qed.

(** Whatever the inputs, the result is either [NaN] or a value that
    compares greater than or equal to zero. *)
Lemma calculateRequiredInvestment_NaN_or_nonneg targetAmount monthlyContribution annualRate months :
  calculateRequiredInvestment targetAmount monthlyContribution annualRate months = NaN
  \/ num_ge (calculateRequiredInvestment targetAmount monthlyContribution annualRate months)
       (Fin 0) = true.
Proof. unfold calculateRequiredInvestment. apply Math_max_zero_cases. Qed.

Lemma requiredPrincipal_unclamped_finite (t c r : Q) (n : Z) :
  ~ r == 0 -> (0 <= n)%Z -> ~ (1 + r / 100 / 12) ^ n == 0 ->
  requiredPrincipal_unclamped (Fin t) (Fin c) (Fin r) n = Fin (rp_closed t c r n).
Proof.
  intros Hr Hn Hx. unfold requiredPrincipal_unclamped.
  rewrite monthly_rate_of.
  change (Fin 1 + Fin (r / 100 / 12))%num with (Fin (1 + r / 100 / 12)).
  rewrite Math_pow_finite by exact Hn.
  unfold num_sub, num_opp, num_add, num_div, num_mul.
  rewrite (monthly_rate_nonzero Hr).
  replace (Qeq_bool ((1 + r / 100 / 12) ^ n) 0) with false; [reflexivity|].
  symmetry. apply not_true_is_false. intros H. apply Hx.
  apply Qeq_bool_iff. exact H.
Qed.

(** A finite unclamped solution only arises at a non-zero rate and a
    non-zero growth factor. *)
Lemma requiredPrincipal_unclamped_finite_inv (t c r q : Q) (n : Z) :
  (0 <= n)%Z ->
  requiredPrincipal_unclamped (Fin t) (Fin c) (Fin r) n = Fin q ->
  ~ r == 0 /\ ~ (1 + r / 100 / 12) ^ n == 0 /\ q = rp_closed t c r n.
Proof.
  intros Hn H.
  assert (Hr : ~ r == 0).
  { intros Hr. rewrite (requiredPrincipal_zero_rate _ _ _ Hr) in H. discriminate H. }
  assert (Hx : ~ (1 + r / 100 / 12) ^ n == 0).
  { intros Hx. revert H. unfold requiredPrincipal_unclamped.
    rewrite monthly_rate_of.
    change (Fin 1 + Fin (r / 100 / 12))%num with (Fin (1 + r / 100 / 12)).
    rewrite Math_pow_finite by exact Hn.
    unfold num_sub, num_opp, num_add, num_div, num_mul.
    rewrite (monthly_rate_nonzero Hr).
    replace (Qeq_bool ((1 + r / 100 / 12) ^ n) 0) with true
      by (symmetry; apply Qeq_bool_iff; exact Hx).
    apply Qsign_inf_not_finite. }
  split; [exact Hr|]. split; [exact Hx|].
  rewrite (requiredPrincipal_unclamped_finite t c Hr Hn Hx) in H.
  injection H as H. symmetry. exact H.
Qed.

(** Round trip at a non-zero rate, in exact arithmetic: when the unclamped solution is a
    non-negative finite number, feeding the required investment back into
    [calculateFutureValue] gives the target. *)
Lemma roundtrip_when_solution_nonneg (t c r q : Q) (n : Z) :
  (0 <= n)%Z ->
  requiredPrincipal_unclamped (Fin t) (Fin c) (Fin r) n = Fin q -> 0 <= q ->
  num_eq (calculateFutureValue
            (calculateRequiredInvestment (Fin t) (Fin c) (Fin r) n)
            (Fin c) (Fin r) n)
         (Fin t).
Proof.
  intros Hn H Hq.
  destruct (requiredPrincipal_unclamped_finite_inv _ _ _ Hn H) as (Hr & Hx & Eq).
  unfold calculateRequiredInvestment. rewrite H.
  assert (Hmax : Math_max (Fin 0) (Fin q) = Fin q).
  { simpl. apply Qle_bool_iff in Hq. rewrite Hq. reflexivity. }
  rewrite Hmax, calculateFutureValue_finite by assumption.
  simpl. subst q. unfold fv_closed, rp_closed. field.
  split; assumption.
Qed.

(** C2 (round trip).  In exact arithmetic the round trip is exact at every
    non-zero rate
    ([roundtrip_when_solution_nonneg]), but at rate 0 both functions return
    [NaN]: for target 2200, contribution 100 and 12 periods the algebraic
    solution is 1000, yet the required investment is [NaN] and so is the
    future value computed from it. *)
Theorem roundtrip_zero_rate_is_NaN :
  (forall targetAmount monthlyContribution months,
      calculateFutureValue
        (calculateRequiredInvestment targetAmount monthlyContribution (Fin 0) months)
        monthlyContribution (Fin 0) months = NaN)
  /\ calculateRequiredInvestment (Fin 2200) (Fin 100) (Fin 0) 12 = NaN
  /\ ~ num_eq (calculateFutureValue
                 (calculateRequiredInvestment (Fin 2200) (Fin 100) (Fin 0) 12)
                 (Fin 100) (Fin 0) 12)
              (Fin 2200).
Proof.
  split; [intros; apply futureValue_zero_rate; reflexivity|].
  split; [apply requiredInvestment_zero_rate; reflexivity|].
  rewrite futureValue_zero_rate by reflexivity. intros H. exact H.
Qed.

(** In exact arithmetic, contributions alone reaching the target give
    exactly zero, at a non-zero
    rate above -1200 (positive growth factor). *)
Lemma calculateRequiredInvestment_zero_when_contributions_suffice (t c r : Q) (n : Z) :
  ~ r == 0 -> -(1200) < r -> (0 <= n)%Z ->
  t <= c * (((1 + r / 100 / 12) ^ n - 1) / (r / 100 / 12)) ->
  num_eq (calculateRequiredInvestment (Fin t) (Fin c) (Fin r) n) (Fin 0).
Proof.
  intros Hr Hlow Hn Hsuff.
  assert (Hx : 0 < (1 + r / 100 / 12) ^ n).
  { apply Qpower_0_lt.
    setoid_replace (1 + r / 100 / 12) with ((1200 + r) / 1200) by field.
    apply Qlt_shift_div_l; [reflexivity|]. lra. }
  assert (Hx0 : ~ (1 + r / 100 / 12) ^ n == 0)
    by (intros E; rewrite E in Hx; discriminate Hx).
  unfold calculateRequiredInvestment.
  rewrite (requiredPrincipal_unclamped_finite t c Hr Hn Hx0).
  assert (Hle : rp_closed t c r n <= 0).
  { unfold rp_closed. apply Qle_shift_div_r; [exact Hx|]. lra. }
  simpl. destruct (Qle_bool 0 (rp_closed t c r n)) eqn:E; simpl; [|reflexivity].
  apply Qle_bool_iff in E. apply Qle_antisym; assumption.
Qed.

(** C5 (non-negative required principal).  [Math.max(0, x)] floors every
    number at zero ([calculateRequiredInvestment_NaN_or_nonneg],
    [calculateRequiredInvestment_zero_when_contributions_suffice]), but at
    rate 0 the unclamped value is [NaN] and [Math.max(0, NaN)] is [NaN]: the
    result is not a value [>= 0], and with contributions of 12 x 100 against a
    target of 1000 it is [NaN] where the specification asks for exactly 0. *)
Theorem calculateRequiredInvestment_zero_rate_is_NaN :
  (forall targetAmount monthlyContribution months,
      calculateRequiredInvestment targetAmount monthlyContribution (Fin 0) months = NaN
      /\ num_ge (calculateRequiredInvestment targetAmount monthlyContribution (Fin 0) months)
           (Fin 0) = false)
  /\ ~ num_eq (calculateRequiredInvestment (Fin 1000) (Fin 100) (Fin 0) 12) (Fin 0).
Proof.
  split.
  - intros t c n. rewrite requiredInvestment_zero_rate by reflexivity.
    split; reflexivity.
  - rewrite requiredInvestment_zero_rate by reflexivity. intros H. exact H.
Qed.

(** *** calculateProjections *)

Section ProjectionFacts.

Variable Math_pow_fractional : number -> number -> number.
Variables initialInvestment monthlyContribution annualRate : number.

Local Abbreviation point :=
  (projectionPoint Math_pow_fractional initialInvestment
     monthlyContribution annualRate).
Local Abbreviation loop :=
  (projections_loop Math_pow_fractional initialInvestment
     monthlyContribution annualRate).

Lemma projections_loop_length (remaining : nat) (m : Z) (data : list MonthData) :
  length (loop remaining m data) = (length data + remaining)%nat.
Proof.
  revert m data. induction remaining as [|k IH]; intros m data; simpl.
  - lia.
  - rewrite IH, length_app. simpl. lia.
Qed.

(** The loop appends the points of the months [m], [m+1], ... in order. *)
Lemma projections_loop_nth (remaining : nat) (m : Z) (data : list MonthData) (i : nat) :
  (i < remaining)%nat ->
  nth_error (loop remaining m data) (length data + i)
  = Some (point (m + Z.of_nat i)).
Proof.
  revert m data i. induction remaining as [|k IH]; intros m data i Hi; [lia|].
  simpl. destruct i as [|i].
  - clear IH.
    assert (Hpre : forall k' m' d, (length data < length d)%nat ->
              nth_error (loop k' m' d) (length data) = nth_error d (length data)).
    { induction k' as [|k' IH']; intros m' d Hd; simpl; [reflexivity|].
      rewrite IH' by (rewrite length_app; simpl; lia).
      apply nth_error_app1. exact Hd. }
    rewrite Nat.add_0_r, Hpre by (rewrite length_app; simpl; lia).
    rewrite nth_error_app2 by lia. rewrite Nat.sub_diag, Z.add_0_r. reflexivity.
  - replace (length data + S i)%nat
      with (length (data ++ [point m]) + i)%nat by (rewrite length_app; simpl; lia).
    rewrite (IH (m + 1)%Z (data ++ [point m]) i) by lia.
    f_equal. f_equal. lia.
Qed.

Lemma calculateProjections_length (years : Z) :
  length (calculateProjections Math_pow_fractional initialInvestment
            monthlyContribution annualRate years)
  = Z.to_nat (years * 12).
Proof.
  unfold calculateProjections. apply (projections_loop_length _ 1 []).
Qed.

Lemma calculateProjections_nth (years k : Z) :
  (1 <= k <= years * 12)%Z ->
  nth_error (calculateProjections Math_pow_fractional initialInvestment
               monthlyContribution annualRate years) (Z.to_nat (k - 1))
  = Some (point k).
Proof.
  intros Hk. unfold calculateProjections.
  pose proof (@projections_loop_nth (Z.to_nat (years * 12)) 1 [] (Z.to_nat (k - 1))) as H.
  change (length (@nil MonthData) + Z.to_nat (k - 1))%nat with (Z.to_nat (k - 1)) in H.
  rewrite H by lia. f_equal. f_equal. lia.
Qed.

Lemma calculateProjections_In (years : Z) (pt : MonthData) :
  In pt (calculateProjections Math_pow_fractional initialInvestment
           monthlyContribution annualRate years) ->
  exists k, (1 <= k <= years * 12)%Z /\ pt = point k.
Proof.
  intros Hin. apply In_nth_error in Hin. destruct Hin as [i Hi].
  assert (Hlt : (i < Z.to_nat (years * 12))%nat).
  { rewrite <- calculateProjections_length. apply nth_error_Some. congruence. }
  exists (Z.of_nat i + 1)%Z. split; [lia|].
  pose proof (@calculateProjections_nth years (Z.of_nat i + 1) ltac:(lia)) as E.
  replace (Z.to_nat (Z.of_nat i + 1 - 1)) with i in E by lia.
  congruence.
Qed.

End ProjectionFacts.

Lemma Qfloor_div_12 (k : Z) : Qfloor (inject_Z k / 12) = (k / 12)%Z.
Proof.
  unfold Qdiv, Qmult, Qinv, inject_Z, Qfloor. simpl.
  rewrite Z.mul_1_r. reflexivity.
Qed.

Lemma year_projectionPoint pw init c r (k : Z) :
  year (projectionPoint pw init c r k) = num_of_Z (k / 12).
Proof.
  unfold projectionPoint. cbv zeta. cbn [year].
  unfold num_of_Z at 1. unfold num_div.
  change (Qeq_bool 12 0) with false. cbv iota.
  unfold Math_floor. rewrite Qfloor_div_12. reflexivity.
Qed.

(** C6 (length and order of the series).  For an integer [years >= 0] the
    series has exactly [years * 12] points, and for every k between 1 and
    [years * 12] the k-th point carries month index k and year
    [floor(k / 12)]. *)
Theorem calculateProjections_length_and_order
  (Math_pow_fractional : number -> number -> number)
  (initialInvestment monthlyContribution annualRate : number) (years : Z) :
  (0 <= years)%Z ->
  let series := calculateProjections Math_pow_fractional initialInvestment
                  monthlyContribution annualRate years in
  Z.of_nat (length series) = (years * 12)%Z
  /\ forall k : Z, (1 <= k <= years * 12)%Z ->
       exists pt, nth_error series (Z.to_nat (k - 1)) = Some pt
                  /\ month pt = num_of_Z k
                  /\ year pt = num_of_Z (k / 12).
Proof.
  intros Hy series. split.
  - unfold series. rewrite calculateProjections_length. lia.
  - intros k Hk. eexists. split.
    + unfold series. apply calculateProjections_nth. exact Hk.
    + split; [reflexivity|]. apply year_projectionPoint.
Qed.

Lemma calculateProjections_length_and_order_witness :
  (0 <= 2)%Z /\
  let series := calculateProjections (fun _ _ => NaN) (Fin 10000) (Fin 500) (Fin 10) 2 in
  Z.of_nat (length series) = (2 * 12)%Z
  /\ forall k : Z, (1 <= k <= 2 * 12)%Z ->
       exists pt, nth_error series (Z.to_nat (k - 1)) = Some pt
                  /\ month pt = num_of_Z k
                  /\ year pt = num_of_Z (k / 12).
Proof.
  split; [lia|].
  apply (@calculateProjections_length_and_order
           (fun _ _ => NaN) (Fin 10000) (Fin 500) (Fin 10) 2).
  lia.
Defined.

(** *** Rounding at emission *)

Lemma Qfloor_bounds (x : Q) : inject_Z (Qfloor x) <= x /\ x < inject_Z (Qfloor x) + 1.
Proof.
  split; [apply Qfloor_le|].
  pose proof (Qlt_floor x) as H. rewrite inject_Z_plus in H. exact H.
Qed.








(** *** calculateYearsToMilestone *)

Section Bisection.

Variables currentBalance monthlyContribution annualRate targetAmount : number.

Local Abbreviation below :=
  (fun m : Z =>
     num_lt (calculateFutureValue currentBalance monthlyContribution annualRate m)
       targetAmount).
Local Abbreviation loop :=
  (bisect_loop currentBalance monthlyContribution annualRate targetAmount).

(** The loop exits when the fuel covers the width of the interval. *)
Lemma bisect_loop_terminates (fuel : nat) (low high : Z) :
  (high - low <= Z.of_nat fuel)%Z -> exists P, loop fuel low high = Some P.
Proof.
  revert low high. induction fuel as [|f IH]; intros low high Hw; simpl.
  - destruct (low <? high)%Z eqn:E; [apply Z.ltb_lt in E; lia|eauto].
  - destruct (low <? high)%Z eqn:E; [|eauto].
    apply Z.ltb_lt in E.
    pose proof (Z.div_le_lower_bound (low + high) 2 low ltac:(lia) ltac:(lia)).
    pose proof (Z.div_lt_upper_bound (low + high) 2 high ltac:(lia) ltac:(lia)).
    destruct (below ((low + high) / 2)%Z); apply IH; lia.
Qed.

(** Invariant of the loop: the month before the result is below the target
    unless the result is the initial lower bound, and the result is not below
    the target unless it is the initial upper bound. *)
Lemma bisect_loop_bracket (fuel : nat) (low high P : Z) :
  (low <= high)%Z -> loop fuel low high = Some P ->
  (low <= P <= high)%Z
  /\ (P = low \/ below (P - 1)%Z = true)
  /\ (P = high \/ below P = false).
Proof.
  revert low high. induction fuel as [|f IH]; intros low high Hle; simpl.
  - destruct (low <? high)%Z eqn:E; [discriminate|].
    apply Z.ltb_ge in E. intros [= <-]. repeat split; try lia; left; lia.
  - destruct (low <? high)%Z eqn:E.
    + apply Z.ltb_lt in E.
      pose proof (Z.div_le_lower_bound (low + high) 2 low ltac:(lia) ltac:(lia)).
      pose proof (Z.div_lt_upper_bound (low + high) 2 high ltac:(lia) ltac:(lia)).
      destruct (below ((low + high) / 2)%Z) eqn:B; intros HP;
        apply IH in HP; try lia; destruct HP as (Hr & Hl & Hh).
      * split; [lia|]. split; [|exact Hh].
        right. destruct Hl as [->|Hl]; [|exact Hl].
        replace ((low + high) / 2 + 1 - 1)%Z with ((low + high) / 2)%Z by lia.
        exact B.
      * split; [lia|]. split; [exact Hl|].
        right. destruct Hh as [->|Hh]; [exact B|exact Hh].
    + apply Z.ltb_ge in E. intros [= <-]. repeat split; try lia; left; lia.
Qed.

End Bisection.

(** At a non-zero rate of at least -1200 the growth factor is non-negative,
    so the balance is monotone in the month count (in one direction or the
    other); starting below the target, a month below the target has only
    months below the target before it. *)
Lemma fv_closed_below_downward (p c r t : Q) (m m' : Z) :
  ~ r == 0 -> -(1200) <= r -> p < t -> (0 <= m <= m')%Z ->
  fv_closed p c r m' < t -> fv_closed p c r m < t.
Proof.
  intros Hr Hlow Hpt Hm Hlt.
  apply Qnot_le_lt. intros Hge.
  rewrite fv_closed_affine in Hlt, Hge by exact Hr.
  set (x := 1 + r / 100 / 12) in *.
  set (B := c / (r / 100 / 12)) in *.
  assert (Hx : 0 <= x).
  { unfold x. setoid_replace (1 + r / 100 / 12) with ((1200 + r) / 1200) by field.
    apply Qle_shift_div_l; [reflexivity|]. lra. }
  set (u := x ^ m) in *. set (v := x ^ m') in *.
  destruct (Qlt_le_dec x 1) as [Hsmall|Hbig].
  - assert (Hu : u <= 1).
    { unfold u. change 1 with (x ^ 0). apply Qpower_le_compat_small; [lia|exact Hx|lra]. }
    assert (Hv : v <= u).
    { unfold u, v. apply Qpower_le_compat_small; [lia|exact Hx|lra]. }
    destruct (Qlt_le_dec (p + B) 0); nra.
  - assert (Hu : 1 <= u).
    { unfold u. apply Qpower_1_le; [exact Hbig|lia]. }
    assert (Hv : u <= v).
    { unfold u, v. apply Qpower_le_compat_l; [lia|exact Hbig]. }
    destruct (Qlt_le_dec (p + B) 0); nra.
Qed.

Lemma num_ge_Fin_false (a b : Q) : num_ge (Fin a) (Fin b) = false <-> a < b.
Proof.
  unfold num_ge. simpl. split.
  - intros H. apply Qnot_le_lt. intros Hle. apply Qle_bool_iff in Hle. congruence.
  - intros H. destruct (Qle_bool b a) eqn:E; [|reflexivity].
    apply Qle_bool_iff in E. exfalso. exact (Qlt_not_le _ _ H E).
Qed.

Lemma milestone_fuel_suffices : (1200 - 0 <= Z.of_nat 1200)%Z.
Proof. vm_compute. discriminate. Qed.

(** In exact arithmetic (the rounding, overflow and underflow of binary64
    set aside), for finite inputs and a non-zero rate of at least -1200, the
    balance is monotone in the month count and the month the search returns
    is the first one at or above the target. *)
Lemma milestone_first_month_exact (p c r t : Q) :
  ~ r == 0 -> -(1200) <= r ->
  exists y,
    calculateYearsToMilestone (Fin p) (Fin c) (Fin r) (Fin t) = Some y
    /\ milestone_spec (Fin p) (Fin c) (Fin r) (Fin t) y.
Proof.
  intros Hr Hlow. unfold calculateYearsToMilestone, milestone_spec.
  destruct (num_ge (Fin p) (Fin t)) eqn:Hge; [eexists; split; reflexivity|].
  apply num_ge_Fin_false in Hge.
  destruct (@bisect_loop_terminates (Fin p) (Fin c) (Fin r) (Fin t) 1200 0 1200
              milestone_fuel_suffices) as [P HP].
  rewrite HP. eexists. split; [reflexivity|].
  destruct (@bisect_loop_bracket (Fin p) (Fin c) (Fin r) (Fin t) 1200 0 1200 P
              ltac:(lia) HP) as (Hrange & Hl & Hh).
  exists P. split; [exact Hrange|]. split; [simpl; reflexivity|]. split.
  - intros m Hm.
    destruct Hl as [->|Hl]; [lia|].
    rewrite calculateFutureValue_finite in Hl |- * by (try exact Hr; lia).
    apply num_lt_Fin. apply num_lt_Fin in Hl.
    apply (@fv_closed_below_downward p c r t m (P - 1)); try assumption. lia.
  - destruct Hh as [->|Hh].
    + destruct (num_lt (calculateFutureValue (Fin p) (Fin c) (Fin r) 1200) (Fin t)) eqn:E.
      * right. split; reflexivity.
      * left. rewrite calculateFutureValue_finite in E |- * by (try exact Hr; lia).
        apply num_lt_Fin_false in E. unfold num_ge. apply num_le_Fin. exact E.
    + left. rewrite calculateFutureValue_finite in Hh |- * by (try exact Hr; lia).
      apply num_lt_Fin_false in Hh. unfold num_ge. apply num_le_Fin. exact Hh.
Qed.

Lemma bisect_loop_as_bisect_with
  (currentBalance monthlyContribution annualRate targetAmount : number)
  (fuel : nat) (low high : Z) :
  bisect_loop currentBalance monthlyContribution annualRate targetAmount fuel low high
  = bisect_with
      (fun mid =>
         num_lt (calculateFutureValue currentBalance monthlyContribution annualRate mid)
           targetAmount)
      fuel low high.
Proof.
  revert low high. induction fuel as [|f IH]; intros low high; simpl.
  - reflexivity.
  - rewrite !IH. reflexivity.
Qed.

(** The loop only tests months of the interval it works on. *)
Lemma bisect_with_ext (b1 b2 : Z -> bool) (fuel : nat) (low high : Z) :
  (forall m, (low <= m < high)%Z -> b1 m = b2 m) ->
  bisect_with b1 fuel low high = bisect_with b2 fuel low high.
Proof.
  revert low high. induction fuel as [|f IH]; intros low high Hext; simpl.
  - reflexivity.
  - destruct (low <? high)%Z eqn:E; [|reflexivity].
    apply Z.ltb_lt in E.
    pose proof (Z.div_le_lower_bound (low + high) 2 low ltac:(lia) ltac:(lia)).
    pose proof (Z.div_lt_upper_bound (low + high) 2 high ltac:(lia) ltac:(lia)).
    rewrite (Hext ((low + high) / 2)%Z) by lia.
    destruct (b2 ((low + high) / 2)%Z); apply IH; intros m Hm; apply Hext; lia.
Qed.

(** The bracket the loop ends on, whatever the test: the month before the
    result passes the test unless the result is the initial lower bound, and
    the result fails it unless it is the initial upper bound. *)
Lemma bisect_with_bracket (below : Z -> bool) (fuel : nat) (low high P : Z) :
  (low <= high)%Z -> bisect_with below fuel low high = Some P ->
  (low <= P <= high)%Z
  /\ (P = low \/ below (P - 1)%Z = true)
  /\ (P = high \/ below P = false).
Proof.
  revert low high. induction fuel as [|f IH]; intros low high Hle; simpl.
  - destruct (low <? high)%Z eqn:E; [discriminate|].
    apply Z.ltb_ge in E. intros [= <-]. repeat split; try lia; left; lia.
  - destruct (low <? high)%Z eqn:E.
    + apply Z.ltb_lt in E.
      pose proof (Z.div_le_lower_bound (low + high) 2 low ltac:(lia) ltac:(lia)).
      pose proof (Z.div_lt_upper_bound (low + high) 2 high ltac:(lia) ltac:(lia)).
      destruct (below ((low + high) / 2)%Z) eqn:B; intros HP;
        apply IH in HP; try lia; destruct HP as (Hr & Hl & Hh).
      * split; [lia|]. split; [|exact Hh].
        right. destruct Hl as [->|Hl]; [|exact Hl].
        replace ((low + high) / 2 + 1 - 1)%Z with ((low + high) / 2)%Z by lia.
        exact B.
      * split; [lia|]. split; [exact Hl|].
        right. destruct Hh as [->|Hh]; [exact B|exact Hh].
    + apply Z.ltb_ge in E. intros [= <-]. repeat split; try lia; left; lia.
Qed.

Lemma bisect_with_terminates (below : Z -> bool) (fuel : nat) (low high : Z) :
  (high - low <= Z.of_nat fuel)%Z -> exists P, bisect_with below fuel low high = Some P.
Proof.
  revert low high. induction fuel as [|f IH]; intros low high Hw; simpl.
  - destruct (low <? high)%Z eqn:E; [apply Z.ltb_lt in E; lia|eauto].
  - destruct (low <? high)%Z eqn:E; [|eauto].
    apply Z.ltb_lt in E.
    pose proof (Z.div_le_lower_bound (low + high) 2 low ltac:(lia) ltac:(lia)).
    pose proof (Z.div_lt_upper_bound (low + high) 2 high ltac:(lia) ltac:(lia)).
    destruct (below ((low + high) / 2)%Z); apply IH; lia.
Qed.

(** What the bisection over [0, 1200] establishes for an arbitrary test:
    it returns a month [P] of the interval whose predecessor passes the test
    and which fails it itself (up to the two ends); [P] is the sentinel 1200
    when every month before 1200 passes, and the first failing month when
    the months that pass form an initial segment. *)
Lemma bisect_with_result (below : Z -> bool) :
  exists P,
    bisect_with below 1200 0 1200 = Some P
    /\ (0 <= P <= 1200)%Z
    /\ (P = 0%Z \/ below (P - 1)%Z = true)
    /\ (P = 1200%Z \/ below P = false)
    /\ ((forall m, (0 <= m < 1200)%Z -> below m = true) -> P = 1200%Z)
    /\ ((forall m m', (0 <= m <= m')%Z -> (m' < 1200)%Z ->
           below m' = true -> below m = true) ->
        forall m, (0 <= m < P)%Z -> below m = true).
Proof.
  destruct (@bisect_with_terminates below 1200 0 1200 milestone_fuel_suffices)
    as [P HP].
  destruct (@bisect_with_bracket below 1200 0 1200 P ltac:(lia) HP)
    as (Hrange & Hl & Hh).
  exists P. repeat split; try assumption; try lia.
  - intros Hall. destruct Hh as [->|Hh]; [reflexivity|].
    destruct (Z.eq_dec P 1200) as [E|E]; [exact E|].
    rewrite Hall in Hh by lia. discriminate Hh.
  - intros Hclosed m Hm. destruct Hl as [->|Hl]; [lia|].
    apply (Hclosed m (P - 1)%Z); [lia|lia|exact Hl].
Qed.

(** Two numbers that are not [NaN] are ordered one way or the other. *)
Lemma num_lt_false_ge (x y : number) :
  num_lt x y = false -> x <> NaN -> y <> NaN -> num_ge x y = true.
Proof.
  unfold num_ge.
  destruct x as [a| | |], y as [b| | |]; simpl; intros H Hx Hy;
    try reflexivity; try discriminate; try (exfalso; congruence).
  apply negb_false_iff in H. exact H.
Qed.

(** C3 (milestone search), as amended.  For every balance, contribution,
    rate and target the search returns; the result is 0 when the balance
    already reaches the target, and otherwise [P / 12] for a month count P
    of [0..1200] such that the balance at month P - 1 is below the target
    (when P > 0) and the balance at month P is not below it (when P < 1200),
    hence at or above it when both are numbers.  P is the sentinel 1200 when
    every month before 1200 is below the target, and P is the first month
    not below the target whenever the months below the target form an
    initial segment; nothing more is promised when the balance is not
    monotone in the month count. *)
Theorem calculateYearsToMilestone_bracket
  (currentBalance monthlyContribution annualRate targetAmount : number) :
  let below := fun m : Z =>
    num_lt (calculateFutureValue currentBalance monthlyContribution annualRate m)
      targetAmount in
  exists y,
    calculateYearsToMilestone currentBalance monthlyContribution annualRate
      targetAmount = Some y
    /\ if num_ge currentBalance targetAmount then y = Fin 0
       else
         exists P : Z,
           (0 <= P <= 1200)%Z
           /\ y = (num_of_Z P / Fin 12)%num
           /\ (P = 0%Z \/ below (P - 1)%Z = true)
           /\ (P = 1200%Z \/ below P = false)
           /\ (P = 1200%Z
               \/ calculateFutureValue currentBalance monthlyContribution
                    annualRate P = NaN
               \/ targetAmount = NaN
               \/ num_ge (calculateFutureValue currentBalance monthlyContribution
                            annualRate P) targetAmount = true)
           /\ ((forall m, (0 <= m < 1200)%Z -> below m = true) -> P = 1200%Z)
           /\ ((forall m m', (0 <= m <= m')%Z -> (m' < 1200)%Z ->
                  below m' = true -> below m = true) ->
               forall m, (0 <= m < P)%Z -> below m = true).
Proof.
  intros below. unfold calculateYearsToMilestone.
  destruct (num_ge currentBalance targetAmount); [eexists; split; reflexivity|].
  rewrite bisect_loop_as_bisect_with. fold below.
  destruct (bisect_with_result below) as (P & HP & Hrange & Hl & Hh & Hsent & Hfirst).
  rewrite HP. eexists. split; [reflexivity|].
  exists P. split; [exact Hrange|]. split; [reflexivity|].
  split; [exact Hl|]. split; [exact Hh|]. split; [|split; assumption].
  destruct Hh as [->|Hh]; [left; reflexivity|].
  destruct (calculateFutureValue currentBalance monthlyContribution annualRate P)
    as [a| | |] eqn:Ev;
    try (right; left; reflexivity);
    (destruct targetAmount as [b| | |] eqn:Et;
     [ | | |right; right; left; reflexivity]);
    right; right; right; unfold below in Hh; rewrite Ev in Hh;
    apply num_lt_false_ge; try exact Hh; discriminate.
Qed.

(** The same holds on binary64: the loop of [Binary64.bisect_loop] is the
    bisection over the binary64 test, so its result is bracketed in the same
    way, whatever rounding does to the balances. *)
Lemma binary64_bisect_loop_as_bisect_with
  (currentBalance monthlyContribution annualRate targetAmount : float)
  (fuel : nat) (low high : Z) :
  Binary64.bisect_loop currentBalance monthlyContribution annualRate targetAmount
    fuel low high
  = bisect_with
      (fun mid =>
         PrimFloat.ltb
           (Binary64.calculateFutureValue currentBalance monthlyContribution
              annualRate (Z.to_nat mid))
           targetAmount)
      fuel low high.
Proof.
  revert low high. induction fuel as [|f IH]; intros low high; simpl.
  - reflexivity.
  - rewrite !IH. reflexivity.
Qed.

Lemma binary64_calculateYearsToMilestone_bracket
  (currentBalance monthlyContribution annualRate targetAmount : float) :
  let below := fun m : Z =>
    PrimFloat.ltb
      (Binary64.calculateFutureValue currentBalance monthlyContribution
         annualRate (Z.to_nat m))
      targetAmount in
  exists y,
    Binary64.calculateYearsToMilestone currentBalance monthlyContribution
      annualRate targetAmount = Some y
    /\ if PrimFloat.leb targetAmount currentBalance then y = 0%float
       else
         exists P : Z,
           (0 <= P <= 1200)%Z
           /\ y = PrimFloat.div (Binary64.of_nat (Z.to_nat P)) 12
           /\ (P = 0%Z \/ below (P - 1)%Z = true)
           /\ (P = 1200%Z \/ below P = false)
           /\ ((forall m, (0 <= m < 1200)%Z -> below m = true) -> P = 1200%Z)
           /\ ((forall m m', (0 <= m <= m')%Z -> (m' < 1200)%Z ->
                  below m' = true -> below m = true) ->
               forall m, (0 <= m < P)%Z -> below m = true).
Proof.
  intros below. unfold Binary64.calculateYearsToMilestone.
  destruct (PrimFloat.leb targetAmount currentBalance);
    [eexists; split; reflexivity|].
  rewrite binary64_bisect_loop_as_bisect_with. fold below.
  destruct (bisect_with_result below) as (P & HP & Hrange & Hl & Hh & Hsent & Hfirst).
  rewrite HP. eexists. split; [reflexivity|].
  exists P. repeat split; try assumption; lia.
Qed.

Lemma Qpower_minus_one (m : Z) :
  (0 <= m)%Z -> (-1 # 1) ^ m == if Z.even m then 1 else -1 # 1.
Proof.
  intros Hm.
  assert (Heven : forall k, (0 <= k)%Z -> (-1 # 1) ^ (2 * k) == 1).
  { intros k Hk. rewrite Qpower_mult.
    change ((-1 # 1) ^ 2) with (1 # 1). apply Qpower_1. }
  destruct (Z.even m) eqn:E.
  - apply Z.even_spec in E. destruct E as [k ->]. apply Heven. lia.
  - assert (O : Z.odd m = true) by (rewrite <- Z.negb_even, E; reflexivity).
    apply Z.odd_spec in O. destruct O as [k ->].
    rewrite Qpower_plus by (intros H; discriminate H).
    rewrite Heven by lia. reflexivity.
Qed.

(** With principal 0, contribution 10 and rate -2400 the balance is 0 at
    every even month and 10 at every odd month. *)
Lemma oscillating_balance (m : Z) :
  (0 <= m)%Z ->
  num_lt (calculateFutureValue (Fin 0) (Fin 10) (Fin (-2400 # 1)) m) (Fin 5)
  = Z.even m.
Proof.
  intros Hm.
  rewrite calculateFutureValue_finite by (try lia; intros H; discriminate H).
  assert (Hx : 1 + (-2400 # 1) / 100 / 12 == -1 # 1) by reflexivity.
  assert (Hv : fv_closed 0 10 (-2400 # 1) m
               == if Z.even m then 0 else 10).
  { unfold fv_closed. rewrite Hx, (Qpower_minus_one Hm).
    destruct (Z.even m); reflexivity. }
  destruct (Z.even m).
  - apply num_lt_Fin. rewrite Hv. reflexivity.
  - apply num_lt_Fin_false. rewrite Hv. intros H. discriminate H.
Qed.

(** C3, counterexample.  At a rate below -1200 the growth factor is negative
    and the balance oscillates: with principal 0, contribution 10, rate -2400
    and target 5 the balance is 10 at every odd month and 0 at every even
    month.  The first month at or above the target is month 1, but the
    bisection returns 1101 / 12. *)
Lemma calculateYearsToMilestone_oscillating_counterexample :
  calculateYearsToMilestone (Fin 0) (Fin 10) (Fin (-2400 # 1)) (Fin 5)
  = Some (num_of_Z 1101 / Fin 12)%num
  /\ ~ (exists y,
          calculateYearsToMilestone (Fin 0) (Fin 10) (Fin (-2400 # 1)) (Fin 5) = Some y
          /\ milestone_spec (Fin 0) (Fin 10) (Fin (-2400 # 1)) (Fin 5) y).
Proof.
  assert (E : calculateYearsToMilestone (Fin 0) (Fin 10) (Fin (-2400 # 1)) (Fin 5)
              = Some (num_of_Z 1101 / Fin 12)%num).
  { assert (Hl : bisect_loop (Fin 0) (Fin 10) (Fin (-2400 # 1)) (Fin 5) 1200 0 1200
                 = Some 1101%Z).
    { rewrite bisect_loop_as_bisect_with.
      etransitivity;
        [apply (@bisect_with_ext _ Z.even);
         intros m Hm; apply oscillating_balance; lia
        |vm_compute; reflexivity]. }
    unfold calculateYearsToMilestone.
    change (num_ge (Fin 0) (Fin 5)) with false. cbv iota.
    rewrite Hl. reflexivity. }
  split; [exact E|].
  intros (y & Hy & Hspec). rewrite E in Hy. injection Hy as <-.
  unfold milestone_spec in Hspec.
  change (num_ge (Fin 0) (Fin 5)) with false in Hspec.
  destruct Hspec as (P & Hrange & Heq & Hbelow & _).
  assert (HP : (P <= 1)%Z).
  { destruct (Z_le_gt_dec P 1) as [H|H]; [exact H|].
    specialize (Hbelow 1%Z ltac:(lia)).
    rewrite oscillating_balance in Hbelow by lia. discriminate Hbelow. }
  assert (HP' : P = 0%Z \/ P = 1%Z) by lia.
  destruct HP' as [-> | ->]; vm_compute in Heq; discriminate Heq.
Qed.

(** The same input on binary64, where every operation involved is exact:
    the balance at month 1 is 10, above the target 5, and the search returns
    1101 / 12 = 91.75. *)
Lemma binary64_oscillating_search :
  Binary64.calculateYearsToMilestone 0 10 (-2400) 5 = Some 91.75%float
  /\ PrimFloat.leb 5 (Binary64.calculateFutureValue 0 10 (-2400) 1) = true.
Proof. vm_compute. split; reflexivity. Qed.

(** *** calculateInvestmentMetrics *)

Lemma calculateYearsToMilestone_returns
  (currentBalance monthlyContribution annualRate targetAmount : number) :
  exists y,
    calculateYearsToMilestone currentBalance monthlyContribution annualRate targetAmount
    = Some y.
Proof.
  unfold calculateYearsToMilestone.
  destruct (num_ge currentBalance targetAmount); [eauto|].
  destruct (@bisect_loop_terminates currentBalance monthlyContribution annualRate
              targetAmount 1200 0 1200 milestone_fuel_suffices) as [P ->].
  eauto.
Qed.

(** The counter of the rate loop is [k / 10] after [k] increments, so the
    loop exits within 501 iterations. *)
Lemma requiredRate_loop_terminates
  (initialInvestment monthlyContribution targetBalance : number) (len : Z)
  (fuel : nat) (k : Z) (q : Q) :
  (0 <= k)%Z -> q == inject_Z k / 10 -> (501 - k <= Z.of_nat fuel)%Z ->
  exists rr,
    requiredRate_loop initialInvestment monthlyContribution targetBalance len
      fuel (Fin q) = Some rr.
Proof.
  revert k q. induction fuel as [|f IH]; intros k q Hk Hq Hfuel; simpl.
  - destruct (Qle_bool q 50) eqn:E; [|eauto].
    exfalso. apply Qle_bool_iff in E. rewrite Hq in E.
    assert (H : inject_Z 501 <= inject_Z k) by (rewrite <- Zle_Qle; lia).
    change (inject_Z 501) with (501 # 1) in H.
    assert (H' : inject_Z k / 10 == inject_Z k * (1 # 10)) by field.
    rewrite H' in E. lra.
  - destruct (Qle_bool q 50) eqn:E; [|eauto].
    destruct (num_ge _ targetBalance); [eauto|].
    apply (IH (k + 1)%Z); [lia| |lia].
    rewrite Hq, inject_Z_plus. change (inject_Z 1) with 1. field.
Qed.

Lemma rate_fuel_suffices : (501 - 0 <= Z.of_nat 501)%Z.
Proof. vm_compute. discriminate. Qed.

Lemma array_get_last {A : Type} (front : list A) (x : A) :
  array_get (front ++ [x]) (Z.of_nat (length (front ++ [x])) - 1) = Some x.
Proof.
  unfold array_get. rewrite length_app. simpl length.
  replace (Z.of_nat (length front + 1) - 1)%Z with (Z.of_nat (length front)) by lia.
  destruct (Z.of_nat (length front) <? 0)%Z eqn:E; [apply Z.ltb_lt in E; lia|].
  rewrite Nat2Z.id, nth_error_app2 by lia.
  rewrite Nat.sub_diag. reflexivity.
Qed.

Lemma requiredRate_value_returns init mc len income :
  exists rr, requiredRate_value init mc len income = Some rr.
Proof.
  unfold requiredRate_value. destruct income as [income|]; [|eauto].
  destruct (truthy income); [|eauto].
  apply (@requiredRate_loop_terminates init mc _ len 501 0 0);
    [lia|reflexivity|exact rate_fuel_suffices].
Qed.

(** On a series that ends with [finalMonth] the call returns, and every
    field comes from [finalMonth], the three milestone searches and the rate
    search. *)
Lemma calculateInvestmentMetrics_nonempty
  (front : list MonthData) (finalMonth : MonthData)
  (initialInvestment monthlyContribution annualRate : number)
  (targetMonthlyIncome : option number) :
  exists y1 y2 y5 rr,
    calculateYearsToMilestone initialInvestment monthlyContribution annualRate
      (Fin 1000000) = Some y1
    /\ calculateYearsToMilestone initialInvestment monthlyContribution annualRate
         (Fin 2000000) = Some y2
    /\ calculateYearsToMilestone initialInvestment monthlyContribution annualRate
         (Fin 5000000) = Some y5
    /\ requiredRate_value initialInvestment monthlyContribution
         (Z.of_nat (length (front ++ [finalMonth]))) targetMonthlyIncome = Some rr
    /\ calculateInvestmentMetrics (front ++ [finalMonth]) initialInvestment
         monthlyContribution annualRate targetMonthlyIncome
       = Returns
           {| finalBalance := Math_round (balance finalMonth);
              totalContributions := Math_round (contributions finalMonth);
              totalGains := Math_round (gains finalMonth);
              inflationAdjustedValue := Math_round (inflationAdjusted finalMonth);
              monthlyIncome :=
                Math_round (balance finalMonth * Fin (4 # 100) / Fin 12)%num;
              yearsTo1M := (Math_round (y1 * Fin 10) / Fin 10)%num;
              yearsTo2M := (Math_round (y2 * Fin 10) / Fin 10)%num;
              yearsTo5M := (Math_round (y5 * Fin 10) / Fin 10)%num;
              vsSavings :=
                Math_round (balance finalMonth - savingsAccount finalMonth)%num;
              vsBonds := Math_round (balance finalMonth - bonds finalMonth)%num;
              requiredRate := (Math_round (rr * Fin 10) / Fin 10)%num;
              withdrawalSustainability := Fin 25 |}.
Proof.
  destruct (calculateYearsToMilestone_returns initialInvestment monthlyContribution
              annualRate (Fin 1000000)) as [y1 H1].
  destruct (calculateYearsToMilestone_returns initialInvestment monthlyContribution
              annualRate (Fin 2000000)) as [y2 H2].
  destruct (calculateYearsToMilestone_returns initialInvestment monthlyContribution
              annualRate (Fin 5000000)) as [y5 H5].
  destruct (requiredRate_value_returns initialInvestment monthlyContribution
              (Z.of_nat (length (front ++ [finalMonth]))) targetMonthlyIncome)
    as [rr Hrr].
  exists y1, y2, y5, rr. repeat (split; [assumption|]).
  unfold calculateInvestmentMetrics.
  rewrite array_get_last, H1, H2, H5.
  fold (requiredRate_value initialInvestment monthlyContribution
          (Z.of_nat (length (front ++ [finalMonth]))) targetMonthlyIncome).
  rewrite Hrr. reflexivity.
Qed.

Lemma calculateInvestmentMetrics_empty
  (initialInvestment monthlyContribution annualRate : number)
  (targetMonthlyIncome : option number) :
  calculateInvestmentMetrics [] initialInvestment monthlyContribution annualRate
    targetMonthlyIncome = ThrowsTypeError.
Proof. reflexivity. Qed.

(** C9 (the series must be non-empty).  The function reads
    [projections[projections.length - 1]] without a guard.  On the empty
    series the index is -1, the read is out of bounds and the call throws; on
    a non-empty series the read is in bounds, the call returns, and every
    field is computed from that final point, the three milestone searches and
    the rate search. *)
Theorem calculateInvestmentMetrics_requires_nonempty
  (projections : list MonthData)
  (initialInvestment monthlyContribution annualRate : number)
  (targetMonthlyIncome : option number) :
  (projections = []
   /\ array_get projections (Z.of_nat (length projections) - 1) = None
   /\ calculateInvestmentMetrics projections initialInvestment monthlyContribution
        annualRate targetMonthlyIncome = ThrowsTypeError)
  \/ (exists front finalMonth y1 y2 y5 rr,
        projections = front ++ [finalMonth]
        /\ array_get projections (Z.of_nat (length projections) - 1) = Some finalMonth
        /\ calculateYearsToMilestone initialInvestment monthlyContribution annualRate
             (Fin 1000000) = Some y1
        /\ calculateYearsToMilestone initialInvestment monthlyContribution annualRate
             (Fin 2000000) = Some y2
        /\ calculateYearsToMilestone initialInvestment monthlyContribution annualRate
             (Fin 5000000) = Some y5
        /\ requiredRate_value initialInvestment monthlyContribution
             (Z.of_nat (length projections)) targetMonthlyIncome = Some rr
        /\ calculateInvestmentMetrics projections initialInvestment
             monthlyContribution annualRate targetMonthlyIncome
           = Returns
               {| finalBalance := Math_round (balance finalMonth);
                  totalContributions := Math_round (contributions finalMonth);
                  totalGains := Math_round (gains finalMonth);
                  inflationAdjustedValue := Math_round (inflationAdjusted finalMonth);
                  monthlyIncome :=
                    Math_round (balance finalMonth * Fin (4 # 100) / Fin 12)%num;
                  yearsTo1M := (Math_round (y1 * Fin 10) / Fin 10)%num;
                  yearsTo2M := (Math_round (y2 * Fin 10) / Fin 10)%num;
                  yearsTo5M := (Math_round (y5 * Fin 10) / Fin 10)%num;
                  vsSavings :=
                    Math_round (balance finalMonth - savingsAccount finalMonth)%num;
                  vsBonds := Math_round (balance finalMonth - bonds finalMonth)%num;
                  requiredRate := (Math_round (rr * Fin 10) / Fin 10)%num;
                  withdrawalSustainability := Fin 25 |}).
Proof.
  destruct projections as [|pt rest] eqn:E.
  - left. repeat split; reflexivity.
  - right. rewrite <- E.
    destruct (@exists_last _ projections ltac:(subst; discriminate))
      as (front & finalMonth & ->).
    destruct (calculateInvestmentMetrics_nonempty front finalMonth initialInvestment
                monthlyContribution annualRate targetMonthlyIncome)
      as (y1 & y2 & y5 & rr & H1 & H2 & H5 & Hrr & Hres).
    exists front, finalMonth, y1, y2, y5, rr.
    split; [reflexivity|]. split; [apply array_get_last|].
    repeat (split; [assumption|]). exact Hres.
Qed.

(** C10 (withdrawalSustainability), counterexample.  On the empty series
    the call throws before any field is produced, so no metrics carrying the
    constant are returned. *)
Lemma withdrawalSustainability_empty_series_counterexample :
  ~ (exists m,
        calculateInvestmentMetrics [] (Fin 10000) (Fin 500) (Fin 10) None = Returns m
        /\ withdrawalSustainability m = Fin 25).
Proof. intros (m & H & _). discriminate H. Qed.

(** C10, as amended.  For every non-empty series and every principal,
    contribution, rate and optional target income, the call returns metrics
    whose [withdrawalSustainability] is the constant 25. *)
Theorem withdrawalSustainability_is_25
  (projections : list MonthData)
  (initialInvestment monthlyContribution annualRate : number)
  (targetMonthlyIncome : option number) :
  projections <> [] ->
  exists m,
    calculateInvestmentMetrics projections initialInvestment monthlyContribution
      annualRate targetMonthlyIncome = Returns m
    /\ withdrawalSustainability m = Fin 25.
Proof.
  intros Hne.
  destruct (exists_last Hne) as (front & finalMonth & ->).
  destruct (calculateInvestmentMetrics_nonempty front finalMonth initialInvestment
              monthlyContribution annualRate targetMonthlyIncome)
    as (y1 & y2 & y5 & rr & _ & _ & _ & _ & Hres).
  eexists. split; [exact Hres|]. reflexivity.
Qed.

Lemma withdrawalSustainability_is_25_witness :
  let series := [projectionPoint (fun _ _ => NaN) (Fin 10000) (Fin 500) (Fin 10) 1] in
  series <> []
  /\ exists m,
      calculateInvestmentMetrics series (Fin 10000) (Fin 500) (Fin 10)
        (Some (Fin 4000)) = Returns m
      /\ withdrawalSustainability m = Fin 25.
Proof.
  intros series.
  assert (Hne : series <> []) by discriminate.
  split; [exact Hne|].
  exact (@withdrawalSustainability_is_25 series (Fin 10000) (Fin 500) (Fin 10)
           (Some (Fin 4000)) Hne).
Defined.

(** *** The required-rate search *)

Lemma rate_candidate_value (k : nat) :
  exists q, rate_candidate k = Fin q /\ q == inject_Z (Z.of_nat k) / 10.
Proof.
  induction k as [|k (q & E & Hq)].
  - exists 0. split; reflexivity.
  - exists (q + (1 # 10)). split.
    + unfold rate_candidate in *. simpl. rewrite E. reflexivity.
    + rewrite Hq, Nat2Z.inj_succ. unfold Z.succ. rewrite inject_Z_plus.
      change (inject_Z 1) with 1. field.
Qed.

Lemma rate_candidate_in_range (k : nat) :
  num_le (rate_candidate k) (Fin 50) = true <-> (k <= 500)%nat.
Proof.
  destruct (rate_candidate_value k) as (q & -> & Hq).
  rewrite num_le_Fin, Hq.
  assert (E : inject_Z (Z.of_nat k) / 10 == inject_Z (Z.of_nat k) * (1 # 10)) by field.
  rewrite E. split.
  - intros H. assert (H' : inject_Z (Z.of_nat k) <= inject_Z 500).
    { change (inject_Z 500) with (500 # 1). lra. }
    rewrite <- Zle_Qle in H'. lia.
  - intros H. assert (H' : inject_Z (Z.of_nat k) <= inject_Z 500)
      by (rewrite <- Zle_Qle; lia).
    change (inject_Z 500) with (500 # 1) in H'. lra.
Qed.

(** In exact arithmetic the loop returns the first of the candidates
    0, 0.1, ..., 50 whose balance reaches the target, and 0 when none does. *)
Lemma requiredRate_loop_first_candidate
  (initialInvestment monthlyContribution targetBalance : number) (len : Z)
  (fuel k : nat) :
  let meets := fun j : nat =>
    num_ge (calculateFutureValue initialInvestment monthlyContribution
              (rate_candidate j) len) targetBalance in
  (501 <= k + fuel)%nat ->
  (forall j, (j < k)%nat -> meets j = false) ->
  (exists k', (k' <= 500)%nat /\ meets k' = true
              /\ (forall j, (j < k')%nat -> meets j = false)
              /\ requiredRate_loop initialInvestment monthlyContribution
                   targetBalance len fuel (rate_candidate k)
                 = Some (rate_candidate k'))
  \/ ((forall j, (j <= 500)%nat -> meets j = false)
      /\ requiredRate_loop initialInvestment monthlyContribution targetBalance
           len fuel (rate_candidate k) = Some (Fin 0)).
Proof.
  intros meets. revert k.
  induction fuel as [|f IH]; intros k Hfuel Hbefore.
  - right. assert (Hk : ~ (k <= 500)%nat) by lia.
    rewrite <- rate_candidate_in_range in Hk.
    simpl. destruct (num_le (rate_candidate k) (Fin 50)); [congruence|].
    split; [|reflexivity]. intros j Hj. apply Hbefore. lia.
  - simpl. destruct (num_le (rate_candidate k) (Fin 50)) eqn:G.
    + apply rate_candidate_in_range in G.
      destruct (num_ge (calculateFutureValue initialInvestment monthlyContribution
                          (rate_candidate k) len) targetBalance) eqn:M.
      * left. exists k. repeat split; assumption.
      * apply (IH (S k)); [lia|].
        intros j Hj. destruct (Nat.eq_dec j k) as [->|Hne]; [exact M|].
        apply Hbefore. lia.
    + right. split; [|reflexivity].
      intros j Hj. apply Hbefore.
      destruct (Nat.lt_ge_cases j k) as [H|H]; [exact H|].
      exfalso. assert (Hk : (k <= 500)%nat) by lia.
      apply rate_candidate_in_range in Hk. congruence.
Qed.

(** The final rounding to one decimal leaves a candidate unchanged. *)
Lemma requiredRate_rounding_exact (k : nat) :
  num_eq (Math_round (rate_candidate k * Fin 10) / Fin 10)%num (rate_candidate k).
Proof.
  destruct (rate_candidate_value k) as (q & -> & Hq).
  unfold num_mul, Math_round, num_of_Z, num_div.
  change (Qeq_bool 10 0) with false. cbv iota. unfold num_eq.
  assert (E : q * 10 + (1 # 2) == inject_Z (Z.of_nat k) + (1 # 2))
    by (rewrite Hq; field).
  assert (F : Qfloor (q * 10 + (1 # 2)) = Z.of_nat k).
  { pose proof (Qfloor_bounds (q * 10 + (1 # 2))) as [L U].
    set (fl := Qfloor (q * 10 + (1 # 2))) in *.
    assert (L' : inject_Z fl < inject_Z (Z.of_nat k + 1)).
    { rewrite inject_Z_plus. change (inject_Z 1) with 1. lra. }
    assert (U' : inject_Z (Z.of_nat k - 1) < inject_Z fl).
    { unfold Z.sub. rewrite inject_Z_plus, inject_Z_opp.
      change (inject_Z 1) with 1. lra. }
    rewrite <- Zlt_Qlt in L', U'. lia. }
  rewrite F, Hq. reflexivity.
Qed.

(** In exact arithmetic, principal 1200000 over one month reaches the
    balance asked by a monthly income of 4166.50 first at the candidate 50. *)
Lemma requiredRate_loop_exact_reaches_50 :
  exists q,
    requiredRate_loop (Fin 1200000) (Fin 0)
      (Fin (41665 # 10) * Fin 12 / Fin (4 # 100))%num 1 501 (Fin 0) = Some (Fin q)
    /\ q == 50.
Proof.
  set (target := (Fin (41665 # 10) * Fin 12 / Fin (4 # 100))%num).
  assert (Hmeets : forall j : nat,
             num_ge (calculateFutureValue (Fin 1200000) (Fin 0) (rate_candidate j) 1)
               target = true <-> (500 <= j)%nat).
  { intros j. destruct (rate_candidate_value j) as (q & -> & Hq).
    destruct (Nat.eq_dec j 0) as [->|Hj].
    - rewrite futureValue_zero_rate by (rewrite Hq; reflexivity).
      split; [discriminate|lia].
    - assert (Hpos : 0 < inject_Z (Z.of_nat j)).
      { change 0 with (inject_Z 0). rewrite <- Zlt_Qlt. lia. }
      assert (Hq' : q == inject_Z (Z.of_nat j) * (1 # 10)) by (rewrite Hq; field).
      assert (Hq0 : ~ q == 0) by (intros H; rewrite H in Hq'; lra).
      rewrite calculateFutureValue_finite by (try exact Hq0; lia).
      unfold target, num_ge. change (Fin (41665 # 10) * Fin 12 / Fin (4 # 100))%num
        with (Fin ((41665 # 10) * 12 / (4 # 100))).
      rewrite num_le_Fin.
      assert (Hv : fv_closed 1200000 0 q 1 == 1200000 + 1000 * q).
      { unfold fv_closed. change ((1 + q / 100 / 12) ^ 1) with (1 + q / 100 / 12).
        field. exact Hq0. }
      assert (Ht : (41665 # 10) * 12 / (4 # 100) == 1249950) by reflexivity.
      rewrite Hv, Ht, Hq'. split.
      + intros H. assert (H' : inject_Z 499 < inject_Z (Z.of_nat j)).
        { change (inject_Z 499) with (499 # 1). lra. }
        rewrite <- Zlt_Qlt in H'. lia.
      + intros H. assert (H' : inject_Z 500 <= inject_Z (Z.of_nat j))
          by (rewrite <- Zle_Qle; lia).
        change (inject_Z 500) with (500 # 1) in H'. lra. }
  destruct (@requiredRate_loop_first_candidate (Fin 1200000) (Fin 0) target 1 501 0
              ltac:(lia) ltac:(intros j Hj; lia))
    as [(k & Hk & Hm & _ & Hres) | (Hnone & _)].
  - apply Hmeets in Hm. assert (k = 500%nat) by lia. subst k.
    change (rate_candidate 0) with (Fin 0) in Hres.
    destruct (rate_candidate_value 500) as (q & Eq & Hq).
    exists q. split; [rewrite Hres; f_equal; exact Eq|]. rewrite Hq. reflexivity.
  - exfalso. specialize (Hnone 500%nat ltac:(lia)).
    assert (H : num_ge (calculateFutureValue (Fin 1200000) (Fin 0)
                          (rate_candidate 500) 1) target = true)
      by (apply Hmeets; lia).
    congruence.
Qed.

(** On binary64 the zero-rate future value is [NaN] as well. *)
Lemma binary64_futureValue_zero_rate :
  PrimFloat.is_nan (Binary64.calculateFutureValue 1000 100 0 12) = true.
Proof. vm_compute. reflexivity. Qed.

(** C8 (required-rate search).  In exact arithmetic the loop visits the
    candidates 0, 0.1, ..., 50 and returns the first that reaches the target
    ([requiredRate_loop_first_candidate]).  On binary64 the counter
    accumulates the rounding of 0.1: after 499 increments it is still below
    50, after 500 increments it is 50.000000000000441, so the guard
    [rate <= 50] fails before the candidate 50 is evaluated.  With principal
    1200000, no contribution, a series of length 1 and a target income of
    4166.50 (target balance 1249950), the candidate 50 reaches the target
    (balance 1250000) but the loop ends with [requiredRate] still 0; the same
    happens over a series of length 12 with principal 1000000 and a target
    income of 5438 (target balance 1631400, balance 1632094.13 at rate 50). *)
Theorem requiredRate_binary64_never_evaluates_50 :
  let target1 := (4166.5 * 12 / Binary64.lit_0_04)%float in
  let target12 := (5438 * 12 / Binary64.lit_0_04)%float in
  (Binary64.rate_after 499 <=? 50)%float = true
  /\ (Binary64.rate_after 500 <=? 50)%float = false
  /\ Binary64.requiredRate_loop 1200000 0 target1 1 501 0 = Some 0%float
  /\ (target1 <=? Binary64.calculateFutureValue 1200000 0 50 1)%float = true
  /\ (Binary64.calculateFutureValue 1200000 0 (Binary64.rate_after 499) 1
      <? target1)%float = true
  /\ Binary64.requiredRate_loop 1000000 0 target12 12 501 0 = Some 0%float
  /\ (target12 <=? Binary64.calculateFutureValue 1000000 0 50 12)%float = true
  /\ (Binary64.calculateFutureValue 1000000 0 (Binary64.rate_after 499) 12
      <? target12)%float = true.
Proof. vm_compute. repeat split. Qed.

(** * Further properties of the engine *)

(** ** calculateFutureValue *)




Lemma fv_closed_step (p c r : Q) (n : Z) :
  ~ r == 0 -> (0 <= n)%Z ->
  fv_closed p c r (n + 1) == fv_closed p c r n * (1 + r / 100 / 12) + c.
Proof.
  intros Hr Hn. unfold fv_closed.
  rewrite Qpower_plus' by lia.
  change ((1 + r / 100 / 12) ^ 1) with (1 + r / 100 / 12).
  field. exact Hr.
Qed.

(** In exact arithmetic the closed formula is month-by-month compounding:
    each month the
    balance grows by the monthly rate and the contribution is added at the
    end of the month. *)
Theorem futureValue_monthly_step (p c r : Q) (n : Z) :
  ~ r == 0 -> (0 <= n)%Z ->
  num_eq (calculateFutureValue (Fin p) (Fin c) (Fin r) (n + 1))
         (calculateFutureValue (Fin p) (Fin c) (Fin r) n
          * (Fin 1 + Fin r / Fin 100 / Fin 12) + Fin c)%num.
Proof.
  intros Hr Hn.
  rewrite !calculateFutureValue_finite by (try exact Hr; lia).
  rewrite monthly_rate_of. simpl. apply fv_closed_step; assumption.
Qed.

Lemma futureValue_monthly_step_witness :
  ~ 10 == 0 /\ (0 <= 7)%Z
  /\ num_eq (calculateFutureValue (Fin 10000) (Fin 500) (Fin 10) (7 + 1))
            (calculateFutureValue (Fin 10000) (Fin 500) (Fin 10) 7
             * (Fin 1 + Fin 10 / Fin 100 / Fin 12) + Fin 500)%num.
Proof.
  assert (H : ~ 10 == 0) by (intros E; discriminate E).
  assert (H' : (0 <= 7)%Z) by lia.
  split; [exact H|]. split; [exact H'|].
  exact (@futureValue_monthly_step 10000 500 10 7 H H').
Defined.

(** In exact arithmetic the balance is additive in the principal and the
    contribution: two
    plans run side by side are worth as much as the merged plan. *)
Theorem futureValue_superposition (p1 p2 c1 c2 r : Q) (n : Z) :
  ~ r == 0 -> (0 <= n)%Z ->
  num_eq (calculateFutureValue (Fin (p1 + p2)) (Fin (c1 + c2)) (Fin r) n)
         (calculateFutureValue (Fin p1) (Fin c1) (Fin r) n
          + calculateFutureValue (Fin p2) (Fin c2) (Fin r) n)%num.
Proof.
  intros Hr Hn.
  rewrite !calculateFutureValue_finite by (try exact Hr; lia).
  simpl. unfold fv_closed. field. exact Hr.
Qed.

Lemma futureValue_superposition_witness :
  ~ 10 == 0 /\ (0 <= 24)%Z
  /\ num_eq (calculateFutureValue (Fin (10000 + 0)) (Fin (500 + 500)) (Fin 10) 24)
            (calculateFutureValue (Fin 10000) (Fin 500) (Fin 10) 24
             + calculateFutureValue (Fin 0) (Fin 500) (Fin 10) 24)%num.
Proof.
  assert (H : ~ 10 == 0) by (intros E; discriminate E).
  assert (H' : (0 <= 24)%Z) by lia.
  split; [exact H|]. split; [exact H'|].
  exact (@futureValue_superposition 10000 0 500 500 10 24 H H').
Defined.

(** In exact arithmetic, at a positive rate, with a non-negative principal
    and contribution, the
    balance does not decrease with the month count and never falls below the
    principal. *)
Theorem futureValue_monotone_in_months (p c r : Q) (n1 n2 : Z) :
  0 <= p -> 0 <= c -> 0 < r -> (0 <= n1 <= n2)%Z ->
  num_le (Fin p) (calculateFutureValue (Fin p) (Fin c) (Fin r) n1) = true
  /\ num_le (calculateFutureValue (Fin p) (Fin c) (Fin r) n1)
            (calculateFutureValue (Fin p) (Fin c) (Fin r) n2) = true.
Proof.
  intros Hp Hc Hr Hn.
  assert (Hr0 : ~ r == 0) by (intros E; rewrite E in Hr; discriminate Hr).
  rewrite !calculateFutureValue_finite by (try exact Hr0; lia).
  split; apply num_le_Fin.
  - rewrite <- (fv_closed_0 p c Hr0) at 1.
    apply fv_closed_monotone; try assumption. lia.
  - apply fv_closed_monotone; assumption.
Qed.

Lemma futureValue_monotone_in_months_witness :
  0 <= 10000 /\ 0 <= 500 /\ 0 < 10 /\ (0 <= 12 <= 360)%Z
  /\ num_le (Fin 10000) (calculateFutureValue (Fin 10000) (Fin 500) (Fin 10) 12)
     = true
  /\ num_le (calculateFutureValue (Fin 10000) (Fin 500) (Fin 10) 12)
            (calculateFutureValue (Fin 10000) (Fin 500) (Fin 10) 360) = true.
Proof.
  assert (H1 : 0 <= 10000) by (intros E; discriminate E).
  assert (H2 : 0 <= 500) by (intros E; discriminate E).
  assert (H3 : 0 < 10) by reflexivity.
  assert (H4 : (0 <= 12 <= 360)%Z) by lia.
  split; [exact H1|]. split; [exact H2|]. split; [exact H3|]. split; [exact H4|].
  exact (@futureValue_monotone_in_months 10000 500 10 12 360 H1 H2 H3 H4).
Defined.

Lemma fv_closed_monotone_in_rate (p c r1 r2 : Q) (n : nat) :
  0 <= p -> 0 <= c -> ~ r1 == 0 -> ~ r2 == 0 -> -(1200) <= r1 -> r1 <= r2 ->
  0 <= fv_closed p c r1 (Z.of_nat n)
  /\ fv_closed p c r1 (Z.of_nat n) <= fv_closed p c r2 (Z.of_nat n).
Proof.
  intros Hp Hc H1 H2 Hlow Hle.
  induction n as [|n [IH0 IH]].
  - change (Z.of_nat 0) with 0%Z. rewrite !fv_closed_0 by assumption.
    split; [exact Hp|apply Qle_refl].
  - rewrite Nat2Z.inj_succ. unfold Z.succ.
    rewrite !fv_closed_step by (try assumption; lia).
    set (a1 := fv_closed p c r1 (Z.of_nat n)) in *.
    set (a2 := fv_closed p c r2 (Z.of_nat n)) in *.
    assert (E1 : 1 + r1 / 100 / 12 == (1200 + r1) * (1 # 1200)) by field.
    assert (E2 : 1 + r2 / 100 / 12 == (1200 + r2) * (1 # 1200)) by field.
    rewrite E1, E2. split; nra.
Qed.

Lemma futureValue_rate_le (p c r1 r2 : Q) (n : Z) :
  0 <= p -> 0 <= c -> ~ r1 == 0 -> ~ r2 == 0 -> -(1200) <= r1 -> r1 <= r2 ->
  (0 <= n)%Z ->
  num_le (calculateFutureValue (Fin p) (Fin c) (Fin r1) n)
         (calculateFutureValue (Fin p) (Fin c) (Fin r2) n) = true.
Proof.
  intros Hp Hc H1 H2 Hlow Hle Hn.
  rewrite !calculateFutureValue_finite by assumption.
  apply num_le_Fin. rewrite <- (Z2Nat.id n) by exact Hn.
  apply fv_closed_monotone_in_rate; assumption.
Qed.

(** In exact arithmetic, for a non-negative principal and contribution, a
    higher rate never gives
    a lower balance (rates of at least -1200, zero excluded). *)
Theorem futureValue_monotone_in_rate (p c r1 r2 : Q) (n : Z) :
  0 <= p -> 0 <= c -> ~ r1 == 0 -> ~ r2 == 0 -> -(1200) <= r1 -> r1 <= r2 ->
  (0 <= n)%Z ->
  num_le (calculateFutureValue (Fin p) (Fin c) (Fin r1) n)
         (calculateFutureValue (Fin p) (Fin c) (Fin r2) n) = true.
Proof.
  intros Hp Hc H1 H2 Hlow Hle Hn.
  rewrite !calculateFutureValue_finite by assumption.
  apply num_le_Fin. rewrite <- (Z2Nat.id n) by exact Hn.
  apply fv_closed_monotone_in_rate; assumption.
Qed.

Lemma futureValue_monotone_in_rate_witness :
  0 <= 10000 /\ 0 <= 500 /\ ~ (15 # 10) == 0 /\ ~ 10 == 0
  /\ -(1200) <= (15 # 10) /\ (15 # 10) <= 10 /\ (0 <= 360)%Z
  /\ num_le (calculateFutureValue (Fin 10000) (Fin 500) (Fin (15 # 10)) 360)
            (calculateFutureValue (Fin 10000) (Fin 500) (Fin 10) 360) = true.
Proof.
  assert (H1 : 0 <= 10000) by (intros E; discriminate E).
  assert (H2 : 0 <= 500) by (intros E; discriminate E).
  assert (H3 : ~ (15 # 10) == 0) by (intros E; discriminate E).
  assert (H4 : ~ 10 == 0) by (intros E; discriminate E).
  assert (H5 : -(1200) <= (15 # 10)) by (intros E; discriminate E).
  assert (H6 : (15 # 10) <= 10) by (intros E; discriminate E).
  assert (H7 : (0 <= 360)%Z) by lia.
  split; [exact H1|]. split; [exact H2|]. split; [exact H3|]. split; [exact H4|]. split; [exact H5|]. split; [exact H6|]. split; [exact H7|].
  exact (@futureValue_monotone_in_rate 10000 500 (15 # 10) 10 360
           H1 H2 H3 H4 H5 H6 H7).
Defined.

(** ** calculateProjections *)

Lemma Math_round_monotone (x y : number) :
  num_le x y = true -> num_le (Math_round x) (Math_round y) = true.
Proof.
  destruct x as [a| | |], y as [b| | |];
    try (simpl; (discriminate || reflexivity)).
  unfold Math_round, num_of_Z, num_le.
  intros H. apply Qle_bool_iff in H. apply Qle_bool_iff.
  rewrite <- Zle_Qle. apply Qfloor_resp_le. lra.
Qed.

(** In exact arithmetic, in every point of a series built from a
    non-negative principal and
    contribution the four comparison scenarios are ordered: worst case, then
    savings account, then bonds, then best case. *)
Theorem projection_scenarios_ordered
  (Math_pow_fractional : number -> number -> number)
  (p c : Q) (annualRate : number) (years : Z) (pt : MonthData) :
  0 <= p -> 0 <= c ->
  In pt (calculateProjections Math_pow_fractional (Fin p) (Fin c) annualRate years) ->
  num_le (worstCase pt) (savingsAccount pt) = true
  /\ num_le (savingsAccount pt) (bonds pt) = true
  /\ num_le (bonds pt) (bestCase pt) = true.
Proof.
  intros Hp Hc Hin. apply calculateProjections_In in Hin.
  destruct Hin as (k & Hk & ->).
  unfold projectionPoint. cbv zeta.
  cbn [worstCase savingsAccount bonds bestCase].
  unfold WORST_YEAR, SAVINGS_INTEREST, BONDS_INTEREST, BEST_YEAR.
  repeat split; apply Math_round_monotone;
    apply futureValue_rate_le;
    try assumption; try lia; intros E; discriminate E.
Qed.

Lemma projection_scenarios_ordered_witness :
  let pw : number -> number -> number := fun _ _ => NaN in
  let pt := projectionPoint pw (Fin 10000) (Fin 500) (Fin 10) 2 in
  0 <= 10000 /\ 0 <= 500
  /\ In pt (calculateProjections pw (Fin 10000) (Fin 500) (Fin 10) 1)
  /\ num_le (worstCase pt) (savingsAccount pt) = true
  /\ num_le (savingsAccount pt) (bonds pt) = true
  /\ num_le (bonds pt) (bestCase pt) = true.
Proof.
  intros pw pt.
  assert (H1 : 0 <= 10000) by (intros E; discriminate E).
  assert (H2 : 0 <= 500) by (intros E; discriminate E).
  assert (Hin : In pt (calculateProjections pw (Fin 10000) (Fin 500) (Fin 10) 1)).
  { eapply nth_error_In.
    apply (@calculateProjections_nth pw (Fin 10000) (Fin 500) (Fin 10) 1 2). lia. }
  split; [exact H1|]. split; [exact H2|]. split; [exact Hin|].
  exact (@projection_scenarios_ordered pw 10000 500 (Fin 10) 1 pt H1 H2 Hin).
Defined.

Lemma projections_loop_app
  (pw : number -> number -> number) (init c r : number)
  (n : nat) (m : Z) (data : list MonthData) :
  projections_loop pw init c r n m data
  = data ++ projections_loop pw init c r n m [].
Proof.
  revert m data. induction n as [|n IH]; intros m data; simpl.
  - rewrite app_nil_r. reflexivity.
  - rewrite (IH (m + 1)%Z (data ++ _)), (IH (m + 1)%Z [_]).
    rewrite <- app_assoc. reflexivity.
Qed.

Lemma projections_loop_split
  (pw : number -> number -> number) (init c r : number) (a b : nat) (m : Z) :
  projections_loop pw init c r (a + b) m []
  = projections_loop pw init c r a m []
    ++ projections_loop pw init c r b (m + Z.of_nat a) [].
Proof.
  revert m. induction a as [|a IH]; intros m.
  - simpl. rewrite Z.add_0_r. reflexivity.
  - cbn [Nat.add projections_loop]. simpl app.
    rewrite (projections_loop_app pw init c r (a + b)),
            (projections_loop_app pw init c r a).
    rewrite IH, <- app_assoc. do 3 f_equal. lia.
Qed.

(** Extending the horizon only appends points: the series for fewer years
    is a prefix of the series for more years. *)
Theorem calculateProjections_prefix
  (Math_pow_fractional : number -> number -> number)
  (initialInvestment monthlyContribution annualRate : number) (y1 y2 : Z) :
  (0 <= y1 <= y2)%Z ->
  exists rest,
    calculateProjections Math_pow_fractional initialInvestment
      monthlyContribution annualRate y2
    = calculateProjections Math_pow_fractional initialInvestment
        monthlyContribution annualRate y1 ++ rest.
Proof.
  intros Hy. unfold calculateProjections.
  replace (Z.to_nat (y2 * 12))
    with (Z.to_nat (y1 * 12) + Z.to_nat ((y2 - y1) * 12))%nat by lia.
  rewrite projections_loop_split. eexists. reflexivity.
Qed.

Lemma calculateProjections_prefix_witness :
  (0 <= 1 <= 3)%Z
  /\ exists rest,
      calculateProjections (fun _ _ => NaN) (Fin 10000) (Fin 500) (Fin 10) 3
      = calculateProjections (fun _ _ => NaN) (Fin 10000) (Fin 500) (Fin 10) 1
        ++ rest.
Proof.
  assert (H : (0 <= 1 <= 3)%Z) by lia.
  split; [exact H|].
  exact (@calculateProjections_prefix (fun _ _ => NaN) (Fin 10000) (Fin 500)
           (Fin 10) 1 3 H).
Defined.

Lemma num_sub_NaN_l (x : number) : (NaN - x)%num = NaN.
Proof. reflexivity. Qed.

Lemma num_div_NaN_l (x : number) : (NaN / x)%num = NaN.
Proof. reflexivity. Qed.

(** At a zero rate every point of the series carries [NaN] in its balance,
    gains and inflation-adjusted balance, whatever the principal, the
    contribution and the horizon. *)
Theorem calculateProjections_zero_rate_NaN
  (Math_pow_fractional : number -> number -> number)
  (initialInvestment monthlyContribution : number) (r : Q) (years : Z)
  (pt : MonthData) :
  r == 0 ->
  In pt (calculateProjections Math_pow_fractional initialInvestment
           monthlyContribution (Fin r) years) ->
  balance pt = NaN /\ gains pt = NaN /\ inflationAdjusted pt = NaN.
Proof.
  intros Hr Hin. apply calculateProjections_In in Hin.
  destruct Hin as (k & Hk & ->).
  unfold projectionPoint. cbv zeta.
  cbn [balance gains inflationAdjusted].
  rewrite (futureValue_zero_rate _ _ _ Hr).
  rewrite num_sub_NaN_l, num_div_NaN_l. repeat split.
Qed.

Lemma calculateProjections_zero_rate_NaN_witness :
  let pw : number -> number -> number := fun _ _ => NaN in
  let pt := projectionPoint pw (Fin 10000) (Fin 500) (Fin 0) 2 in
  0 == 0
  /\ In pt (calculateProjections pw (Fin 10000) (Fin 500) (Fin 0) 1)
  /\ balance pt = NaN /\ gains pt = NaN /\ inflationAdjusted pt = NaN.
Proof.
  intros pw pt.
  assert (H : 0 == 0) by reflexivity.
  assert (Hin : In pt (calculateProjections pw (Fin 10000) (Fin 500) (Fin 0) 1)).
  { eapply nth_error_In.
    apply (@calculateProjections_nth pw (Fin 10000) (Fin 500) (Fin 0) 1 2). lia. }
  split; [exact H|]. split; [exact Hin|].
  exact (@calculateProjections_zero_rate_NaN pw (Fin 10000) (Fin 500) 0 1 pt H Hin).
Defined.

(** ** calculateYearsToMilestone *)

(** Each iteration at least halves the interval, so [fuel] iterations
    suffice for an interval narrower than [2 ^ fuel]. *)
Lemma bisect_with_halving (below : Z -> bool) (fuel : nat) (low high : Z) :
  (high - low < 2 ^ Z.of_nat fuel)%Z ->
  exists P, bisect_with below fuel low high = Some P.
Proof.
  revert low high. induction fuel as [|f IH]; intros low high Hw.
  - simpl. change (2 ^ Z.of_nat 0)%Z with 1%Z in Hw.
    destruct (low <? high)%Z eqn:E; [apply Z.ltb_lt in E; lia|eauto].
  - simpl bisect_with. destruct (low <? high)%Z eqn:E; [|eauto].
    apply Z.ltb_lt in E.
    rewrite Nat2Z.inj_succ, Z.pow_succ_r in Hw by lia.
    pose proof (Z.div_le_lower_bound (low + high) 2 low ltac:(lia) ltac:(lia)).
    pose proof (Z.div_lt_upper_bound (low + high) 2 high ltac:(lia) ltac:(lia)).
    pose proof (Z.mul_div_le (low + high) 2 ltac:(lia)).
    pose proof (Z.mul_succ_div_gt (low + high) 2 ltac:(lia)).
    destruct (below ((low + high) / 2)%Z); apply IH; lia.
Qed.

Lemma bisect_with_more_fuel (below : Z -> bool) (fuel extra : nat) (low high P : Z) :
  bisect_with below fuel low high = Some P ->
  bisect_with below (fuel + extra) low high = Some P.
Proof.
  revert low high. induction fuel as [|f IH]; intros low high; simpl.
  - destruct (low <? high)%Z eqn:E; [discriminate|].
    intros H. destruct extra; simpl; rewrite E; exact H.
  - destruct (low <? high)%Z; [|auto].
    destruct (below ((low + high) / 2)%Z); apply IH.
Qed.

(** The bisection over [0, 1200] exits within 11 evaluations of the
    balance, for every principal, contribution, rate and target. *)
Theorem bisect_loop_within_11_iterations
  (currentBalance monthlyContribution annualRate targetAmount : number) :
  exists P,
    bisect_loop currentBalance monthlyContribution annualRate targetAmount
      11 0 1200 = Some P
    /\ bisect_loop currentBalance monthlyContribution annualRate targetAmount
         1200 0 1200 = Some P.
Proof.
  rewrite !bisect_loop_as_bisect_with.
  destruct (@bisect_with_halving
              (fun mid =>
                 num_lt (calculateFutureValue currentBalance monthlyContribution
                           annualRate mid) targetAmount)
              11 0 1200 ltac:(vm_compute; reflexivity)) as [P HP].
  exists P. split; [exact HP|].
  change 1200%nat with (11 + 1189)%nat.
  apply bisect_with_more_fuel. exact HP.
Qed.

Lemma Qdiv_12_bounds (P : Z) :
  (0 <= P <= 1200)%Z -> 0 <= inject_Z P / 12 /\ inject_Z P / 12 <= 100.
Proof.
  intros [H0 H1].
  assert (E : inject_Z P / 12 == inject_Z P * (1 # 12)) by field.
  rewrite Zle_Qle in H0, H1.
  change (inject_Z 0) with 0 in H0. change (inject_Z 1200) with (1200 # 1) in H1.
  rewrite E. split; lra.
Qed.

Lemma milestone_years_range
  (currentBalance monthlyContribution annualRate targetAmount : number) :
  exists q,
    calculateYearsToMilestone currentBalance monthlyContribution annualRate
      targetAmount = Some (Fin q)
    /\ 0 <= q /\ q <= 100.
Proof.
  unfold calculateYearsToMilestone.
  destruct (num_ge currentBalance targetAmount).
  - exists 0. split; [reflexivity|]. split; [apply Qle_refl|intros E; discriminate E].
  - destruct (@bisect_loop_terminates currentBalance monthlyContribution annualRate
                targetAmount 1200 0 1200 milestone_fuel_suffices) as [P HP].
    rewrite HP.
    destruct (@bisect_loop_bracket currentBalance monthlyContribution annualRate
                targetAmount 1200 0 1200 P ltac:(lia) HP) as (Hrange & _).
    exists (inject_Z P / 12). split; [reflexivity|].
    apply Qdiv_12_bounds. exact Hrange.
Qed.

(** Whatever the inputs (infinities and [NaN] included), the search returns
    a finite number of years between 0 and 100. *)
Theorem calculateYearsToMilestone_between_0_and_100
  (currentBalance monthlyContribution annualRate targetAmount : number) :
  exists q,
    calculateYearsToMilestone currentBalance monthlyContribution annualRate
      targetAmount = Some (Fin q)
    /\ 0 <= q /\ q <= 100.
Proof.
  unfold calculateYearsToMilestone.
  destruct (num_ge currentBalance targetAmount).
  - exists 0. split; [reflexivity|]. split; [apply Qle_refl|intros E; discriminate E].
  - destruct (@bisect_loop_terminates currentBalance monthlyContribution annualRate
                targetAmount 1200 0 1200 milestone_fuel_suffices) as [P HP].
    rewrite HP.
    destruct (@bisect_loop_bracket currentBalance monthlyContribution annualRate
                targetAmount 1200 0 1200 P ltac:(lia) HP) as (Hrange & _).
    exists (inject_Z P / 12). split; [reflexivity|].
    apply Qdiv_12_bounds. exact Hrange.
Qed.

(** At a zero rate every balance is [NaN], no comparison succeeds and the
    search answers 0 years for every target, reached or not. *)
Theorem calculateYearsToMilestone_zero_rate
  (currentBalance monthlyContribution targetAmount : number) (r : Q) :
  r == 0 ->
  exists y,
    calculateYearsToMilestone currentBalance monthlyContribution (Fin r)
      targetAmount = Some y
    /\ num_eq y (Fin 0).
Proof.
  intros Hr. unfold calculateYearsToMilestone.
  destruct (num_ge currentBalance targetAmount).
  - exists (Fin 0). split; reflexivity.
  - destruct (@bisect_loop_terminates currentBalance monthlyContribution (Fin r)
                targetAmount 1200 0 1200 milestone_fuel_suffices) as [P HP].
    rewrite HP.
    destruct (@bisect_loop_bracket currentBalance monthlyContribution (Fin r)
                targetAmount 1200 0 1200 P ltac:(lia) HP) as (_ & Hl & _).
    destruct Hl as [->|Hl].
    + eexists. split; reflexivity.
    + rewrite (futureValue_zero_rate _ _ _ Hr) in Hl. discriminate Hl.
Qed.

Lemma calculateYearsToMilestone_zero_rate_witness :
  0 == 0
  /\ exists y,
      calculateYearsToMilestone (Fin 0) (Fin 1000) (Fin 0) (Fin 1000000) = Some y
      /\ num_eq y (Fin 0).
Proof.
  assert (H : 0 == 0) by reflexivity.
  split; [exact H|].
  exact (@calculateYearsToMilestone_zero_rate (Fin 0) (Fin 1000) (Fin 1000000) 0 H).
Defined.

(** The month the bisection returns, on finite inputs below the target, in
    exact arithmetic. *)
Lemma milestone_month (p c r t : Q) :
  ~ r == 0 -> -(1200) <= r -> p < t ->
  exists P,
    bisect_loop (Fin p) (Fin c) (Fin r) (Fin t) 1200 0 1200 = Some P
    /\ (1 <= P <= 1200)%Z
    /\ (forall m, (0 <= m < P)%Z -> fv_closed p c r m < t)
    /\ (P = 1200%Z \/ t <= fv_closed p c r P).
Proof.
  intros Hr Hlow Hpt.
  destruct (@bisect_loop_terminates (Fin p) (Fin c) (Fin r) (Fin t) 1200 0 1200
              milestone_fuel_suffices) as [P HP].
  destruct (@bisect_loop_bracket (Fin p) (Fin c) (Fin r) (Fin t) 1200 0 1200 P
              ltac:(lia) HP) as (Hrange & Hl & Hh).
  exists P. split; [exact HP|].
  assert (Hh' : P = 1200%Z \/ t <= fv_closed p c r P).
  { destruct Hh as [->|Hh]; [left; reflexivity|right].
    rewrite calculateFutureValue_finite in Hh by (try exact Hr; lia).
    apply num_lt_Fin_false in Hh. exact Hh. }
  assert (Hpos : (1 <= P)%Z).
  { destruct (Z.eq_dec P 0) as [->|]; [|lia].
    destruct Hh' as [H|H]; [discriminate H|].
    rewrite fv_closed_0 in H by exact Hr. lra. }
  split; [lia|]. split; [|exact Hh'].
  intros m Hm. destruct Hl as [->|Hl]; [lia|].
  rewrite calculateFutureValue_finite in Hl by (try exact Hr; lia).
  apply num_lt_Fin in Hl.
  apply (@fv_closed_below_downward p c r t m (P - 1)); try assumption. lia.
Qed.



Lemma milestone_target_le (p c r t1 t2 : Q) :
  ~ r == 0 -> -(1200) <= r -> t1 <= t2 ->
  exists q1 q2,
    calculateYearsToMilestone (Fin p) (Fin c) (Fin r) (Fin t1) = Some (Fin q1)
    /\ calculateYearsToMilestone (Fin p) (Fin c) (Fin r) (Fin t2) = Some (Fin q2)
    /\ q1 <= q2.
Proof.
  intros Hr Hlow Ht.
  destruct (milestone_years_range (Fin p) (Fin c) (Fin r) (Fin t2))
    as (q2 & H2 & H20 & _).
  unfold calculateYearsToMilestone in *.
  destruct (num_ge (Fin p) (Fin t1)) eqn:G1.
  - exists 0, q2. split; [reflexivity|]. split; [exact H2|exact H20].
  - apply num_ge_Fin_false in G1.
    assert (G2 : p < t2) by lra.
    replace (num_ge (Fin p) (Fin t2)) with false in *
      by (symmetry; apply num_ge_Fin_false; exact G2).
    destruct (milestone_month c Hr Hlow G1) as (P1 & HP1 & R1 & B1 & _).
    destruct (milestone_month c Hr Hlow G2) as (P2 & HP2 & R2 & _ & T2).
    rewrite HP1. rewrite HP2 in H2 |- *.
    exists (inject_Z P1 / 12), (inject_Z P2 / 12).
    split; [reflexivity|]. split; [reflexivity|].
    assert (HP : (P1 <= P2)%Z).
    { destruct (Z_le_gt_dec P1 P2) as [H|H]; [exact H|exfalso].
      destruct T2 as [->|T2]; [lia|].
      specialize (B1 P2 ltac:(lia)). lra. }
    rewrite Zle_Qle in HP.
    assert (E1 : inject_Z P1 / 12 == inject_Z P1 * (1 # 12)) by field.
    assert (E2 : inject_Z P2 / 12 == inject_Z P2 * (1 # 12)) by field.
    rewrite E1, E2. lra.
Qed.

(** A higher target is never reached sooner: the years to a target are
    between 0 and 100 and do not decrease when the target grows. *)
Theorem calculateYearsToMilestone_monotone_in_target (p c r t1 t2 : Q) :
  ~ r == 0 -> -(1200) <= r -> t1 <= t2 ->
  exists q1 q2,
    calculateYearsToMilestone (Fin p) (Fin c) (Fin r) (Fin t1) = Some (Fin q1)
    /\ calculateYearsToMilestone (Fin p) (Fin c) (Fin r) (Fin t2) = Some (Fin q2)
    /\ 0 <= q1 /\ q1 <= q2 /\ q2 <= 100.
Proof.
  intros Hr Hlow Ht.
  destruct (milestone_target_le p c Hr Hlow Ht) as (q1 & q2 & H1 & H2 & Hle).
  destruct (milestone_years_range (Fin p) (Fin c) (Fin r) (Fin t1))
    as (a1 & E1 & L1 & _).
  destruct (milestone_years_range (Fin p) (Fin c) (Fin r) (Fin t2))
    as (a2 & E2 & _ & U2).
  rewrite H1 in E1. rewrite H2 in E2.
  injection E1 as <-. injection E2 as <-.
  exists q1, q2. repeat split; assumption.
Qed.

Lemma calculateYearsToMilestone_monotone_in_target_witness :
  ~ 10 == 0 /\ -(1200) <= 10 /\ 1000000 <= 2000000
  /\ exists q1 q2,
      calculateYearsToMilestone (Fin 10000) (Fin 500) (Fin 10) (Fin 1000000)
      = Some (Fin q1)
      /\ calculateYearsToMilestone (Fin 10000) (Fin 500) (Fin 10) (Fin 2000000)
         = Some (Fin q2)
      /\ 0 <= q1 /\ q1 <= q2 /\ q2 <= 100.
Proof.
  assert (H1 : ~ 10 == 0) by (intros E; discriminate E).
  assert (H2 : -(1200) <= 10) by (intros E; discriminate E).
  assert (H3 : 1000000 <= 2000000) by (intros E; discriminate E).
  split; [exact H1|]. split; [exact H2|]. split; [exact H3|].
  exact (@calculateYearsToMilestone_monotone_in_target 10000 500 10 1000000 2000000
           H1 H2 H3).
Defined.

(** ** calculateRequiredInvestment *)

Lemma growth_factor_positive (r : Q) (n : Z) :
  -(1200) < r -> 0 < (1 + r / 100 / 12) ^ n.
Proof.
  intros Hlow. apply Qpower_0_lt.
  setoid_replace (1 + r / 100 / 12) with ((1200 + r) / 1200) by field.
  apply Qlt_shift_div_l; [reflexivity|]. lra.
Qed.

(** In exact arithmetic: whenever the unclamped solution is a non-negative
    number (which
    excludes the zero rate), the clamp leaves it unchanged and feeding it
    back into the future value gives the target exactly. *)
Theorem requiredInvestment_roundtrip (t c r q : Q) (n : Z) :
  (0 <= n)%Z ->
  requiredPrincipal_unclamped (Fin t) (Fin c) (Fin r) n = Fin q -> 0 <= q ->
  calculateRequiredInvestment (Fin t) (Fin c) (Fin r) n = Fin q
  /\ num_eq (calculateFutureValue
               (calculateRequiredInvestment (Fin t) (Fin c) (Fin r) n)
               (Fin c) (Fin r) n)
            (Fin t).
Proof.
  intros Hn Hsol Hq. split.
  - unfold calculateRequiredInvestment. rewrite Hsol.
    simpl. apply Qle_bool_iff in Hq. rewrite Hq. reflexivity.
  - apply (@roundtrip_when_solution_nonneg t c r q n Hn Hsol Hq).
Qed.

Lemma requiredInvestment_roundtrip_witness :
  (0 <= 12)%Z
  /\ requiredPrincipal_unclamped (Fin 100000) (Fin 100) (Fin 10) 12
     = Fin (rp_closed 100000 100 10 12)
  /\ 0 <= rp_closed 100000 100 10 12
  /\ calculateRequiredInvestment (Fin 100000) (Fin 100) (Fin 10) 12
     = Fin (rp_closed 100000 100 10 12)
  /\ num_eq (calculateFutureValue
               (calculateRequiredInvestment (Fin 100000) (Fin 100) (Fin 10) 12)
               (Fin 100) (Fin 10) 12)
            (Fin 100000).
Proof.
  assert (H1 : (0 <= 12)%Z) by lia.
  assert (H2 : requiredPrincipal_unclamped (Fin 100000) (Fin 100) (Fin 10) 12
               = Fin (rp_closed 100000 100 10 12)) by reflexivity.
  assert (H3 : 0 <= rp_closed 100000 100 10 12) by (vm_compute; discriminate).
  split; [exact H1|]. split; [exact H2|]. split; [exact H3|].
  exact (@requiredInvestment_roundtrip 100000 100 10 _ 12 H1 H2 H3).
Defined.

Lemma calculateRequiredInvestment_zero_when_contributions_suffice_witness :
  ~ 10 == 0 /\ -(1200) < 10 /\ (0 <= 12)%Z
  /\ 1000 <= 100 * (((1 + 10 / 100 / 12) ^ 12 - 1) / (10 / 100 / 12))
  /\ num_eq (calculateRequiredInvestment (Fin 1000) (Fin 100) (Fin 10) 12) (Fin 0).
Proof.
  assert (H1 : ~ 10 == 0) by (intros E; discriminate E).
  assert (H2 : -(1200) < 10) by reflexivity.
  assert (H3 : (0 <= 12)%Z) by lia.
  assert (H4 : 1000 <= 100 * (((1 + 10 / 100 / 12) ^ 12 - 1) / (10 / 100 / 12)))
    by (vm_compute; discriminate).
  split; [exact H1|]. split; [exact H2|]. split; [exact H3|]. split; [exact H4|].
  exact (@calculateRequiredInvestment_zero_when_contributions_suffice
           1000 100 10 12 H1 H2 H3 H4).
Defined.

Lemma annuity_factor_nonneg (r : Q) (n : Z) :
  ~ r == 0 -> -(1200) < r -> (0 <= n)%Z ->
  0 <= ((1 + r / 100 / 12) ^ n - 1) / (r / 100 / 12).
Proof.
  intros Hr Hlow Hn.
  set (m := r / 100 / 12).
  assert (Em : m == r * (1 # 1200)) by (unfold m; field).
  destruct (Qlt_le_dec 0 r) as [Hpos|Hneg].
  - assert (Hx : 1 <= (1 + m) ^ n) by (apply Qpower_1_le; [lra|exact Hn]).
    apply Qle_shift_div_l; lra.
  - assert (Hr' : r < 0).
    { apply Qle_lt_or_eq in Hneg. destruct Hneg as [H|H]; [exact H|].
      exfalso. apply Hr. exact H. }
    assert (Hx : (1 + m) ^ n <= 1).
    { change 1 with ((1 + m) ^ 0) at 2.
      apply Qpower_le_compat_small; [lia|lra|lra]. }
    setoid_replace (((1 + m) ^ n - 1) / m) with ((1 - (1 + m) ^ n) / (- m))
      by (field; lra).
    apply Qle_shift_div_l; lra.
Qed.

(** In exact arithmetic the required investment grows with the target and
    shrinks with the
    contribution (non-zero rate above -1200). *)
Theorem calculateRequiredInvestment_monotone (t1 t2 c1 c2 r : Q) (n : Z) :
  ~ r == 0 -> -(1200) < r -> (0 <= n)%Z -> t1 <= t2 -> c2 <= c1 ->
  num_le (calculateRequiredInvestment (Fin t1) (Fin c1) (Fin r) n)
         (calculateRequiredInvestment (Fin t2) (Fin c2) (Fin r) n) = true.
Proof.
  intros Hr Hlow Hn Ht Hc.
  pose proof (growth_factor_positive n Hlow) as Hx.
  assert (Hx0 : ~ (1 + r / 100 / 12) ^ n == 0)
    by (intros E; rewrite E in Hx; discriminate Hx).
  pose proof (annuity_factor_nonneg Hr Hlow Hn) as Ha.
  unfold calculateRequiredInvestment.
  rewrite !requiredPrincipal_unclamped_finite by assumption.
  assert (Hrp : rp_closed t1 c1 r n <= rp_closed t2 c2 r n).
  { unfold rp_closed.
    set (a := ((1 + r / 100 / 12) ^ n - 1) / (r / 100 / 12)) in *.
    set (g := (1 + r / 100 / 12) ^ n) in *.
    apply Qle_shift_div_l; [exact Hx|].
    setoid_replace ((t1 - c1 * a) / g * g) with (t1 - c1 * a) by (field; exact Hx0).
    nra. }
  unfold Math_max.
  destruct (num_le (Fin 0) (Fin (rp_closed t1 c1 r n))) eqn:E1;
    destruct (num_le (Fin 0) (Fin (rp_closed t2 c2 r n))) eqn:E2.
  - apply num_le_Fin. exact Hrp.
  - apply num_le_Fin in E1.
    assert (E2' : ~ 0 <= rp_closed t2 c2 r n)
      by (intros H; apply num_le_Fin in H; congruence).
    exfalso. apply E2'. lra.
  - exact E2.
  - reflexivity.
Qed.

Lemma calculateRequiredInvestment_monotone_witness :
  ~ 10 == 0 /\ -(1200) < 10 /\ (0 <= 240)%Z /\ 1000000 <= 2000000 /\ 100 <= 500
  /\ num_le (calculateRequiredInvestment (Fin 1000000) (Fin 500) (Fin 10) 240)
            (calculateRequiredInvestment (Fin 2000000) (Fin 100) (Fin 10) 240)
     = true.
Proof.
  assert (H1 : ~ 10 == 0) by (intros E; discriminate E).
  assert (H2 : -(1200) < 10) by reflexivity.
  assert (H3 : (0 <= 240)%Z) by lia.
  assert (H4 : 1000000 <= 2000000) by (intros E; discriminate E).
  assert (H5 : 100 <= 500) by (intros E; discriminate E).
  split; [exact H1|]. split; [exact H2|]. split; [exact H3|]. split; [exact H4|]. split; [exact H5|].
  exact (@calculateRequiredInvestment_monotone 1000000 2000000 500 100 10 240
           H1 H2 H3 H4 H5).
Defined.

(** ** The required-rate search *)

Lemma requiredRate_loop_sound
  (initialInvestment monthlyContribution targetBalance : number) (len : Z)
  (fuel : nat) (rate rr : number) :
  requiredRate_loop initialInvestment monthlyContribution targetBalance len
    fuel rate = Some rr ->
  rr = Fin 0
  \/ (num_le rr (Fin 50) = true
      /\ num_ge (calculateFutureValue initialInvestment monthlyContribution rr len)
           targetBalance = true).
Proof.
  revert rate. induction fuel as [|f IH]; intros rate; simpl.
  - destruct (num_le rate (Fin 50)); [discriminate|].
    intros H. injection H as H. left. symmetry. exact H.
  - destruct (num_le rate (Fin 50)) eqn:G.
    + destruct (num_ge (calculateFutureValue initialInvestment monthlyContribution
                          rate len) targetBalance) eqn:M.
      * intros H. injection H as H. subst rr. right. split; assumption.
      * apply IH.
    + intros H. injection H as H. left. symmetry. exact H.
Qed.

(** The rate search never reports a rate that misses the target: the value
    left in [requiredRate] is 0 or a rate of at most 50 whose balance reaches
    the target balance. *)
Theorem requiredRate_value_sound
  (initialInvestment monthlyContribution : number) (len : Z)
  (targetMonthlyIncome : option number) :
  exists rr,
    requiredRate_value initialInvestment monthlyContribution len
      targetMonthlyIncome = Some rr
    /\ (rr = Fin 0
        \/ exists income,
             targetMonthlyIncome = Some income
             /\ truthy income = true
             /\ num_le rr (Fin 50) = true
             /\ num_ge
                  (calculateFutureValue initialInvestment monthlyContribution rr len)
                  (income * Fin 12 / Fin (4 # 100))%num = true).
Proof.
  destruct (requiredRate_value_returns initialInvestment monthlyContribution len
              targetMonthlyIncome) as [rr Hrr].
  exists rr. split; [exact Hrr|].
  unfold requiredRate_value in Hrr.
  destruct targetMonthlyIncome as [income|]; [|injection Hrr as <-; left; reflexivity].
  destruct (truthy income) eqn:T; [|injection Hrr as <-; left; reflexivity].
  apply requiredRate_loop_sound in Hrr.
  destruct Hrr as [->|[H1 H2]]; [left; reflexivity|].
  right. exists income. repeat split; assumption.
Qed.

(** ** calculateInvestmentMetrics on a computed series *)

Lemma Qfloor_integer_plus_half (z : Z) (x : Q) :
  x == inject_Z z -> Qfloor (x + (1 # 2)) = z.
Proof.
  intros Hx. destruct (Qfloor_bounds (x + (1 # 2))) as [L U].
  set (fl := Qfloor (x + (1 # 2))) in *.
  assert (L' : inject_Z fl < inject_Z (z + 1)).
  { rewrite inject_Z_plus. change (inject_Z 1) with 1. lra. }
  assert (U' : inject_Z (z - 1) < inject_Z fl).
  { unfold Z.sub. rewrite inject_Z_plus, inject_Z_opp.
    change (inject_Z 1) with 1. lra. }
  rewrite <- Zlt_Qlt in L', U'. lia.
Qed.

Lemma Math_round_integer (z : Z) (x : Q) :
  x == inject_Z z -> Math_round (Fin x) = num_of_Z z.
Proof.
  intros Hx. unfold Math_round. rewrite (Qfloor_integer_plus_half Hx). reflexivity.
Qed.

Lemma Math_round_num_of_Z (z : Z) : Math_round (num_of_Z z) = num_of_Z z.
Proof. unfold num_of_Z at 1. apply Math_round_integer. reflexivity. Qed.

(** Rounding twice is rounding once. *)
Lemma Math_round_idempotent (x : number) : Math_round (Math_round x) = Math_round x.
Proof.
  destruct x as [a| | |]; try reflexivity.
  unfold Math_round at 2. unfold num_of_Z at 1.
  apply Math_round_integer. reflexivity.
Qed.

Lemma calculateProjections_nonpositive_years
  (pw : number -> number -> number) (init c r : number) (years : Z) :
  (years <= 0)%Z -> calculateProjections pw init c r years = [].
Proof.
  intros Hy. unfold calculateProjections.
  replace (Z.to_nat (years * 12)) with 0%nat by lia. reflexivity.
Qed.

(** The last element of a series of at least one year is the point of month
    [years * 12]. *)
Lemma calculateProjections_final
  (pw : number -> number -> number) (init c r : number) (years : Z) :
  (1 <= years)%Z ->
  array_get (calculateProjections pw init c r years)
    (Z.of_nat (length (calculateProjections pw init c r years)) - 1)
  = Some (projectionPoint pw init c r (years * 12)).
Proof.
  intros Hy. unfold array_get. rewrite calculateProjections_length.
  destruct (Z.of_nat (Z.to_nat (years * 12)) - 1 <? 0)%Z eqn:E;
    [apply Z.ltb_lt in E; lia|].
  replace (Z.to_nat (Z.of_nat (Z.to_nat (years * 12)) - 1))
    with (Z.to_nat (years * 12 - 1)) by lia.
  apply calculateProjections_nth. lia.
Qed.

Lemma calculateInvestmentMetrics_of_final
  (projections : list MonthData) (finalMonth : MonthData)
  (initialInvestment monthlyContribution annualRate : number)
  (targetMonthlyIncome : option number) :
  array_get projections (Z.of_nat (length projections) - 1) = Some finalMonth ->
  exists y1 y2 y5 rr,
    calculateInvestmentMetrics projections initialInvestment
      monthlyContribution annualRate targetMonthlyIncome
    = Returns
        {| finalBalance := Math_round (balance finalMonth);
           totalContributions := Math_round (contributions finalMonth);
           totalGains := Math_round (gains finalMonth);
           inflationAdjustedValue := Math_round (inflationAdjusted finalMonth);
           monthlyIncome :=
             Math_round (balance finalMonth * Fin (4 # 100) / Fin 12)%num;
           yearsTo1M := (Math_round (y1 * Fin 10) / Fin 10)%num;
           yearsTo2M := (Math_round (y2 * Fin 10) / Fin 10)%num;
           yearsTo5M := (Math_round (y5 * Fin 10) / Fin 10)%num;
           vsSavings :=
             Math_round (balance finalMonth - savingsAccount finalMonth)%num;
           vsBonds := Math_round (balance finalMonth - bonds finalMonth)%num;
           requiredRate := (Math_round (rr * Fin 10) / Fin 10)%num;
           withdrawalSustainability := Fin 25 |}.
Proof.
  intros Hget.
  destruct (calculateYearsToMilestone_returns initialInvestment monthlyContribution
              annualRate (Fin 1000000)) as [y1 H1].
  destruct (calculateYearsToMilestone_returns initialInvestment monthlyContribution
              annualRate (Fin 2000000)) as [y2 H2].
  destruct (calculateYearsToMilestone_returns initialInvestment monthlyContribution
              annualRate (Fin 5000000)) as [y5 H5].
  destruct (requiredRate_value_returns initialInvestment monthlyContribution
              (Z.of_nat (length projections)) targetMonthlyIncome) as [rr Hrr].
  exists y1, y2, y5, rr.
  unfold calculateInvestmentMetrics.
  rewrite Hget, H1, H2, H5.
  fold (requiredRate_value initialInvestment monthlyContribution
          (Z.of_nat (length projections)) targetMonthlyIncome).
  rewrite Hrr. reflexivity.
Qed.

Lemma rounded_difference_nonneg (a b : Q) :
  num_le (Math_round (Fin b)) (Math_round (Fin a)) = true ->
  num_le (Fin 0) (Math_round (Math_round (Fin a) - Math_round (Fin b))%num) = true.
Proof.
  unfold Math_round at 1 2. unfold num_of_Z at 1 2. intros H.
  apply num_le_Fin in H. rewrite <- Zle_Qle in H.
  set (za := Qfloor (a + (1 # 2))) in *. set (zb := Qfloor (b + (1 # 2))) in *.
  change (Math_round (Fin a)) with (Fin (inject_Z za)).
  change (Math_round (Fin b)) with (Fin (inject_Z zb)).
  change (Fin (inject_Z za) - Fin (inject_Z zb))%num
    with (Fin (inject_Z za + - inject_Z zb)).
  rewrite (@Math_round_integer (za - zb)).
  - apply num_le_Fin. change 0 with (inject_Z 0). rewrite <- Zle_Qle. lia.
  - unfold Z.sub. rewrite inject_Z_plus, inject_Z_opp. reflexivity.
Qed.

(** In exact arithmetic, over a series of at least one year computed at a
    rate of at least 4.5
    from a non-negative principal and contribution, the metrics are returned
    and the comparisons with the savings account and with bonds are not
    negative. *)
Theorem metrics_comparisons_nonneg
  (Math_pow_fractional : number -> number -> number)
  (p c r : Q) (years : Z) (targetMonthlyIncome : option number) :
  0 <= p -> 0 <= c -> (45 # 10) <= r -> (1 <= years)%Z ->
  exists m,
    calculateInvestmentMetrics
      (calculateProjections Math_pow_fractional (Fin p) (Fin c) (Fin r) years)
      (Fin p) (Fin c) (Fin r) targetMonthlyIncome = Returns m
    /\ num_le (Fin 0) (vsSavings m) = true
    /\ num_le (Fin 0) (vsBonds m) = true.
Proof.
  intros Hp Hc Hr Hy.
  destruct (@calculateInvestmentMetrics_of_final _ _ (Fin p) (Fin c) (Fin r)
              targetMonthlyIncome
              (@calculateProjections_final Math_pow_fractional (Fin p) (Fin c)
                 (Fin r) years Hy))
    as (y1 & y2 & y5 & rr & Hres).
  eexists. split; [exact Hres|].
  cbn [vsSavings vsBonds]. unfold projectionPoint. cbv zeta.
  cbn [balance savingsAccount bonds].
  assert (Hr0 : ~ r == 0) by (intros E; rewrite E in Hr; apply Hr; reflexivity).
  unfold SAVINGS_INTEREST, BONDS_INTEREST.
  rewrite !calculateFutureValue_finite
    by (try exact Hr0; try lia; intros E; discriminate E).
  split; apply rounded_difference_nonneg; apply Math_round_monotone;
    rewrite <- !calculateFutureValue_finite
      by (try exact Hr0; try lia; intros E; discriminate E);
    apply futureValue_rate_le;
    try assumption; try lia; try lra; intros E; discriminate E.
Qed.

Lemma metrics_comparisons_nonneg_witness :
  0 <= 10000 /\ 0 <= 500 /\ (45 # 10) <= 10 /\ (1 <= 30)%Z
  /\ exists m,
      calculateInvestmentMetrics
        (calculateProjections (fun _ _ => NaN) (Fin 10000) (Fin 500) (Fin 10) 30)
        (Fin 10000) (Fin 500) (Fin 10) None = Returns m
      /\ num_le (Fin 0) (vsSavings m) = true
      /\ num_le (Fin 0) (vsBonds m) = true.
Proof.
  assert (H1 : 0 <= 10000) by (intros E; discriminate E).
  assert (H2 : 0 <= 500) by (intros E; discriminate E).
  assert (H3 : (45 # 10) <= 10) by (intros E; discriminate E).
  assert (H4 : (1 <= 30)%Z) by lia.
  split; [exact H1|]. split; [exact H2|]. split; [exact H3|]. split; [exact H4|].
  exact (@metrics_comparisons_nonneg (fun _ _ => NaN) 10000 500 10 30 None
           H1 H2 H3 H4).
Defined.

Lemma one_decimal_monotone (q1 q2 : Q) :
  q1 <= q2 ->
  num_le (Math_round (Fin q1 * Fin 10) / Fin 10)%num
         (Math_round (Fin q2 * Fin 10) / Fin 10)%num = true.
Proof.
  intros H.
  unfold num_mul, Math_round, num_of_Z, num_div.
  change (Qeq_bool 10 0) with false. cbv iota.
  apply num_le_Fin.
  assert (F : (Qfloor (q1 * 10 + (1 # 2)) <= Qfloor (q2 * 10 + (1 # 2)))%Z)
    by (apply Qfloor_resp_le; lra).
  rewrite Zle_Qle in F.
  set (a := inject_Z (Qfloor (q1 * 10 + (1 # 2)))) in *.
  set (b := inject_Z (Qfloor (q2 * 10 + (1 # 2)))) in *.
  assert (Ea : a / 10 == a * (1 # 10)) by field.
  assert (Eb : b / 10 == b * (1 # 10)) by field.
  rewrite Ea, Eb. lra.
Qed.

(** On a non-empty series, with finite inputs and a non-zero rate of at
    least -1200, the three milestone fields of the metrics are ordered:
    years to 1M, then years to 2M, then years to 5M. *)
Theorem metrics_milestones_ordered
  (projections : list MonthData) (p c r : Q)
  (targetMonthlyIncome : option number) :
  projections <> [] -> ~ r == 0 -> -(1200) <= r ->
  exists m,
    calculateInvestmentMetrics projections (Fin p) (Fin c) (Fin r)
      targetMonthlyIncome = Returns m
    /\ num_le (yearsTo1M m) (yearsTo2M m) = true
    /\ num_le (yearsTo2M m) (yearsTo5M m) = true.
Proof.
  intros Hne Hr Hlow.
  destruct (exists_last Hne) as (front & finalMonth & ->).
  destruct (calculateInvestmentMetrics_nonempty front finalMonth (Fin p) (Fin c)
              (Fin r) targetMonthlyIncome)
    as (y1 & y2 & y5 & rr & H1 & H2 & H5 & _ & Hres).
  destruct (@milestone_target_le p c r 1000000 2000000
              Hr Hlow ltac:(intros E; discriminate E))
    as (a1 & a2 & Ha1 & Ha2 & Ha).
  destruct (@milestone_target_le p c r 2000000 5000000
              Hr Hlow ltac:(intros E; discriminate E))
    as (b2 & b5 & Hb2 & Hb5 & Hb).
  rewrite H1 in Ha1. rewrite H2 in Ha2, Hb2. rewrite H5 in Hb5.
  injection Ha1 as ->. injection Ha2 as ->. injection Hb5 as ->.
  injection Hb2 as Hb2.
  eexists. split; [exact Hres|].
  cbn [yearsTo1M yearsTo2M yearsTo5M].
  split; apply one_decimal_monotone; [exact Ha|].
  rewrite Hb2. exact Hb.
Qed.

Lemma metrics_milestones_ordered_witness :
  let series := [projectionPoint (fun _ _ => NaN) (Fin 10000) (Fin 500) (Fin 10) 1] in
  series <> [] /\ ~ 10 == 0 /\ -(1200) <= 10
  /\ exists m,
      calculateInvestmentMetrics series (Fin 10000) (Fin 500) (Fin 10) None
      = Returns m
      /\ num_le (yearsTo1M m) (yearsTo2M m) = true
      /\ num_le (yearsTo2M m) (yearsTo5M m) = true.
Proof.
  intros series.
  assert (H1 : series <> []) by discriminate.
  assert (H2 : ~ 10 == 0) by (intros E; discriminate E).
  assert (H3 : -(1200) <= 10) by (intros E; discriminate E).
  split; [exact H1|]. split; [exact H2|]. split; [exact H3|].
  exact (@metrics_milestones_ordered series 10000 500 10 None H1 H2 H3).
Defined.

(** ** The recalculation effect *)

(** The years the effect works with are never 0 (0 falls back to 30); the
    effect throws when they are negative, and otherwise returns a series of
    [years * 12] points together with its metrics. *)
Theorem recalculate_returns_or_throws
  (Math_pow_fractional : number -> number -> number)
  (state : App.CalculatorState) :
  let years :=
    match App.mode state with
    | App.investment => App.or_default_Z (App.investmentYears state) 30
    | App.goal => App.or_default_Z (App.targetYears state) 30
    end in
  years <> 0%Z
  /\ ((years < 0)%Z ->
      App.recalculate Math_pow_fractional state = ThrowsTypeError)
  /\ ((1 <= years)%Z ->
      exists data m,
        App.recalculate Math_pow_fractional state = Returns (data, m)
        /\ Z.of_nat (length data) = (years * 12)%Z).
Proof.
  intros years. split; [|split].
  - unfold years, App.or_default_Z.
    destruct (App.mode state);
      [destruct (App.targetYears state) as [v|]
      |destruct (App.investmentYears state) as [v|]];
      try discriminate;
      destruct (v =? 0)%Z eqn:E; try discriminate; apply Z.eqb_neq in E; exact E.
  - intros Hneg. unfold App.recalculate. subst years.
    destruct (App.mode state);
      rewrite calculateProjections_nonpositive_years by lia; reflexivity.
  - intros Hpos. unfold App.recalculate. subst years.
    destruct (App.mode state).
    + match goal with
      | |- context [calculateInvestmentMetrics ?d ?i ?c ?r ?t] =>
          destruct (@calculateInvestmentMetrics_of_final d _ i c r t
                      (@calculateProjections_final _ _ _ _ _ Hpos))
            as (y1 & y2 & y5 & rr & Hres);
          rewrite Hres
      end.
      eexists _, _. split; [reflexivity|].
      rewrite calculateProjections_length. lia.
    + match goal with
      | |- context [calculateInvestmentMetrics ?d ?i ?c ?r ?t] =>
          destruct (@calculateInvestmentMetrics_of_final d _ i c r t
                      (@calculateProjections_final _ _ _ _ _ Hpos))
            as (y1 & y2 & y5 & rr & Hres);
          rewrite Hres
      end.
      eexists _, _. split; [reflexivity|].
      rewrite calculateProjections_length. lia.
Qed.

(** In investment mode, over at least one year, the dashboard totals are the
    rounded closed-form values at month [years * 12]: the final balance is
    the rounded future value and the total contributions are the rounded
    principal plus [years * 12] contributions. *)
Theorem recalculate_investment_totals
  (Math_pow_fractional : number -> number -> number)
  (state : App.CalculatorState) :
  App.mode state = App.investment ->
  (1 <= App.or_default_Z (App.investmentYears state) 30)%Z ->
  let principal := App.or_default (App.initialInvestment state) (Fin 0) in
  let contribution := App.or_default (App.monthlyContribution state) (Fin 0) in
  let rate :=
    if App.useCustomRate state then App.customInterestRate state
    else SP500_INTEREST in
  let months := (App.or_default_Z (App.investmentYears state) 30 * 12)%Z in
  exists data m,
    App.recalculate Math_pow_fractional state = Returns (data, m)
    /\ finalBalance m
       = Math_round (calculateFutureValue principal contribution rate months)
    /\ totalContributions m
       = Math_round (principal + contribution * num_of_Z months)%num
    /\ totalGains m
       = Math_round (calculateFutureValue principal contribution rate months
                     - (principal + contribution * num_of_Z months))%num.
Proof.
  intros Hmode Hy principal contribution rate months.
  unfold App.recalculate. rewrite Hmode. cbv zeta.
  fold principal contribution rate.
  destruct (@calculateInvestmentMetrics_of_final _ _ principal contribution rate None
              (@calculateProjections_final Math_pow_fractional principal
                 contribution rate _ Hy))
    as (y1 & y2 & y5 & rr & Hres).
  rewrite Hres. eexists _, _. split; [reflexivity|].
  cbn [finalBalance totalContributions totalGains].
  unfold projectionPoint. cbv zeta. cbn [balance contributions gains].
  rewrite !Math_round_idempotent. repeat split.
Qed.

Lemma recalculate_investment_totals_witness :
  let state :=
    {| App.mode := App.investment;
       App.targetMonthlyIncome := None;
       App.targetYears := None;
       App.initialInvestment := Some (Fin 10000);
       App.monthlyContribution := Some (Fin 500);
       App.investmentYears := Some 30%Z;
       App.useCustomRate := false;
       App.customInterestRate := SP500_INTEREST |} in
  App.mode state = App.investment
  /\ (1 <= App.or_default_Z (App.investmentYears state) 30)%Z
  /\ exists data m,
      App.recalculate (fun _ _ => NaN) state = Returns (data, m)
      /\ finalBalance m
         = Math_round (calculateFutureValue (Fin 10000) (Fin 500) (Fin 10) 360).
Proof.
  intros state.
  assert (H1 : App.mode state = App.investment) by reflexivity.
  assert (H2 : (1 <= App.or_default_Z (App.investmentYears state) 30)%Z)
    by (simpl; lia).
  split; [exact H1|]. split; [exact H2|].
  destruct (@recalculate_investment_totals (fun _ _ => NaN) state H1 H2)
    as (data & m & Hres & Hfb & _).
  exists data, m. split; [exact Hres|exact Hfb].
Defined.

Lemma truthy_num_of_Z (i : Z) : i <> 0%Z -> truthy (num_of_Z i) = true.
Proof.
  intros Hi. unfold truthy, num_of_Z.
  destruct (Qeq_bool (inject_Z i) 0) eqn:E; [|reflexivity].
  apply Qeq_bool_iff in E. exfalso. apply Hi.
  apply inject_Z_injective. exact E.
Qed.

(** In exact arithmetic, in goal mode the plan closes on the goal: with a
    positive whole target
    income, whenever the unclamped required principal is a non-negative
    number, the series ends on the target balance (300 times the income) and
    the monthly income of the metrics is the target income. *)
Theorem recalculate_goal_reaches_target
  (Math_pow_fractional : number -> number -> number)
  (state : App.CalculatorState) (i : Z) (c r q : Q) :
  App.mode state = App.goal ->
  App.targetMonthlyIncome state = Some (num_of_Z i) -> (0 < i)%Z ->
  App.or_default (App.monthlyContribution state) (Fin 0) = Fin c ->
  (if App.useCustomRate state then App.customInterestRate state
   else SP500_INTEREST) = Fin r ->
  (1 <= App.or_default_Z (App.targetYears state) 30)%Z ->
  requiredPrincipal_unclamped (Fin (inject_Z i * 12 / (4 # 100))) (Fin c) (Fin r)
    (App.or_default_Z (App.targetYears state) 30 * 12) = Fin q ->
  0 <= q ->
  exists data m,
    App.recalculate Math_pow_fractional state = Returns (data, m)
    /\ finalBalance m = num_of_Z (300 * i)
    /\ monthlyIncome m = num_of_Z i.
Proof.
  intros Hmode Hinc Hi Hc Hrate Hy Hsol Hq.
  unfold App.recalculate. rewrite Hmode, Hinc, Hc, Hrate. cbv zeta.
  assert (Hd : App.or_default (Some (num_of_Z i)) (Fin 0) = num_of_Z i).
  { unfold App.or_default. rewrite truthy_num_of_Z by lia. reflexivity. }
  rewrite Hd.
  change (num_of_Z i * Fin 12 / Fin (4 # 100))%num
    with (Fin (inject_Z i * 12 / (4 # 100))).
  set (y := App.or_default_Z (App.targetYears state) 30) in *.
  set (T := inject_Z i * 12 / (4 # 100)) in *.
  set (req := calculateRequiredInvestment (Fin T) (Fin c) (Fin r) (y * 12)).
  destruct (@calculateInvestmentMetrics_of_final _ _ req (Fin c) (Fin r)
              (Some (num_of_Z i))
              (@calculateProjections_final Math_pow_fractional req (Fin c)
                 (Fin r) y Hy))
    as (y1 & y2 & y5 & rr & Hres).
  rewrite Hres. eexists _, _. split; [reflexivity|].
  cbn [finalBalance monthlyIncome].
  unfold projectionPoint. cbv zeta. cbn [balance].
  pose proof (@roundtrip_when_solution_nonneg T c r q (y * 12) ltac:(lia) Hsol Hq)
    as Hrt.
  fold req in Hrt.
  destruct (calculateFutureValue req (Fin c) (Fin r) (y * 12)) as [a| | |];
    simpl in Hrt; try contradiction.
  assert (Ha : a == inject_Z (300 * i)).
  { rewrite Hrt. unfold T. rewrite inject_Z_mult.
    change (inject_Z 300) with (300 # 1). field. }
  rewrite (Math_round_integer Ha).
  rewrite Math_round_num_of_Z.
  split; [reflexivity|].
  change (num_of_Z (300 * i) * Fin (4 # 100) / Fin 12)%num
    with (Fin (inject_Z (300 * i) * (4 # 100) / 12)).
  apply Math_round_integer.
  rewrite inject_Z_mult. change (inject_Z 300) with (300 # 1). field.
Qed.

Lemma recalculate_goal_reaches_target_witness :
  let state :=
    {| App.mode := App.goal;
       App.targetMonthlyIncome := Some (num_of_Z 4000);
       App.targetYears := Some 1%Z;
       App.initialInvestment := None;
       App.monthlyContribution := Some (Fin 500);
       App.investmentYears := None;
       App.useCustomRate := false;
       App.customInterestRate := SP500_INTEREST |} in
  exists data m,
    App.recalculate (fun _ _ => NaN) state = Returns (data, m)
    /\ finalBalance m = num_of_Z (300 * 4000)
    /\ monthlyIncome m = num_of_Z 4000.
Proof.
  intros state.
  assert (H1 : App.mode state = App.goal) by reflexivity.
  assert (H2 : App.targetMonthlyIncome state = Some (num_of_Z 4000)) by reflexivity.
  assert (H3 : (0 < 4000)%Z) by lia.
  assert (H4 : App.or_default (App.monthlyContribution state) (Fin 0) = Fin 500)
    by reflexivity.
  assert (H5 : (if App.useCustomRate state then App.customInterestRate state
                else SP500_INTEREST) = Fin 10) by reflexivity.
  assert (H6 : (1 <= App.or_default_Z (App.targetYears state) 30)%Z)
    by (simpl; lia).
  assert (H7 : requiredPrincipal_unclamped
                 (Fin (inject_Z 4000 * 12 / (4 # 100))) (Fin 500) (Fin 10)
                 (App.or_default_Z (App.targetYears state) 30 * 12)
               = Fin (rp_closed (inject_Z 4000 * 12 / (4 # 100)) 500 10 12))
    by reflexivity.
  assert (H8 : 0 <= rp_closed (inject_Z 4000 * 12 / (4 # 100)) 500 10 12)
    by (vm_compute; discriminate).
  exact (@recalculate_goal_reaches_target (fun _ _ => NaN) state 4000 500 10 _
           H1 H2 H3 H4 H5 H6 H7 H8).
Defined.

(** ** A lump sum at a negative rate *)

(** In exact arithmetic, without contributions, a non-negative principal at
    a negative rate (of
    at least -1200) never grows: the balance does not increase with the
    month count and never exceeds the principal. *)
Theorem futureValue_lump_sum_decays (p r : Q) (n1 n2 : Z) :
  0 <= p -> -(1200) <= r -> r < 0 -> (0 <= n1 <= n2)%Z ->
  num_le (calculateFutureValue (Fin p) (Fin 0) (Fin r) n2)
         (calculateFutureValue (Fin p) (Fin 0) (Fin r) n1) = true
  /\ num_le (calculateFutureValue (Fin p) (Fin 0) (Fin r) n1) (Fin p) = true.
Proof.
  intros Hp Hlow Hneg Hn.
  assert (Hr : ~ r == 0) by (intros E; rewrite E in Hneg; discriminate Hneg).
  rewrite !calculateFutureValue_finite by (try exact Hr; lia).
  assert (Hx0 : 0 <= 1 + r / 100 / 12).
  { setoid_replace (1 + r / 100 / 12) with ((1200 + r) * (1 # 1200)) by field. lra. }
  assert (Hx1 : 1 + r / 100 / 12 <= 1).
  { setoid_replace (1 + r / 100 / 12) with ((1200 + r) * (1 # 1200)) by field. lra. }
  assert (Hv : forall n, fv_closed p 0 r n == p * (1 + r / 100 / 12) ^ n).
  { intros n. unfold fv_closed. field.
    intros E. apply Hr. exact E. }
  pose proof (@Qpower_le_compat_small (1 + r / 100 / 12) n1 n2 Hn Hx0 Hx1) as H12.
  pose proof (@Qpower_le_compat_small (1 + r / 100 / 12) 0 n1 ltac:(lia) Hx0 Hx1) as H01.
  change ((1 + r / 100 / 12) ^ 0) with 1 in H01.
  split; apply num_le_Fin; rewrite !Hv; nra.
Qed.

Lemma futureValue_lump_sum_decays_witness :
  0 <= 10000 /\ -(1200) <= -37 # 1 /\ -37 # 1 < 0 /\ (0 <= 12 <= 24)%Z
  /\ num_le (calculateFutureValue (Fin 10000) (Fin 0) (Fin (-37 # 1)) 24)
            (calculateFutureValue (Fin 10000) (Fin 0) (Fin (-37 # 1)) 12) = true
  /\ num_le (calculateFutureValue (Fin 10000) (Fin 0) (Fin (-37 # 1)) 12)
            (Fin 10000) = true.
Proof.
  assert (H1 : 0 <= 10000) by (intros E; discriminate E).
  assert (H2 : -(1200) <= -37 # 1) by (intros E; discriminate E).
  assert (H3 : -37 # 1 < 0) by reflexivity.
  assert (H4 : (0 <= 12 <= 24)%Z) by lia.
  split; [exact H1|]. split; [exact H2|]. split; [exact H3|]. split; [exact H4|].
  exact (@futureValue_lump_sum_decays 10000 (-37 # 1) 12 24 H1 H2 H3 H4).
Defined.
